(** * Business Intelligence Analyzer: the utilities of [utils.py] and the
    orchestrator of [app.py], embedded in Rocq.

    Python values are modelled as follows.
    - A [str] is the list of its Unicode code points ([N]).
    - An [int] is a [Z].
    - A raised exception is the [Raise] alternative of [result].
    - A [datetime] is the number of microseconds since the epoch ([Z]),
      a [timedelta] a number of microseconds ([Z]): both have microsecond
      resolution in Python, so differences and comparisons are exact.
    - A [dict] is a [gmap] where only lookups matter, and the list of its
      items in insertion order where the order is visible. *)

From Stdlib Require Import ZArith QArith List Ascii String Sorting.Permutation.
From stdpp Require Import base option list gmap sorting.

Local Open Scope Z_scope.

(** ** Python preliminaries *)

Module Py.

(** A character is a Unicode code point. *)
Definition char := N.
Abbreviation str := (list N).

(** A literal of the source (ASCII only) as a [str]. *)
Definition lit (s : string) : str :=
  List.map N_of_ascii (list_ascii_of_string s).

(** The exception classes the modelled code can meet. *)
Inductive exn :=
| ValueError
| IndexError
| KeyError
| TypeError
| UnicodeEncodeError.

(** The outcome of evaluating an expression: a value or a raised exception. *)
Inductive result (A : Type) :=
| Ok (a : A)
| Raise (e : exn).
Arguments Ok {A} a.
Arguments Raise {A} e.

Definition bind {A B} (r : result A) (k : A -> result B) : result B :=
  match r with
  | Ok a => k a
  | Raise e => Raise e
  end.

#[global] Instance result_ret : MRet result := @Ok.
#[global] Instance result_bind : MBind result := fun A B k r => bind r k.

(** Python's Unicode character database, which [re] and [int] consult.  It
    belongs to the interpreter, not to the repository, so the functions below
    take it as a parameter.
    - [todecimal c] is [Some d] when [c] is a decimal digit (category Nd) of
      value [d]: these are the characters [\d] matches and [int] accepts.
    - [isword c] holds for the characters [\w] matches (alphanumerics and
      the underscore). *)
Record unicode := Unicode {
  todecimal : char -> option nat;
  isword : char -> bool
}.

Definition isdecimal (U : unicode) (c : char) : bool :=
  match todecimal U c with Some _ => true | None => false end.

(** The restriction of the database to ASCII: every other character is
    neither a digit nor a word character.  It agrees with CPython on ASCII
    text and is used to evaluate the functions on ASCII inputs. *)
Definition ascii_todecimal (c : char) : option nat :=
  if ((48 <=? c) && (c <=? 57))%N then Some (N.to_nat (c - 48)) else None.

Definition ascii_isword (c : char) : bool :=
  (((48 <=? c) && (c <=? 57)) || ((65 <=? c) && (c <=? 90))
   || ((97 <=? c) && (c <=? 122)) || (c =? 95))%N.

Definition ascii_db : unicode := Unicode ascii_todecimal ascii_isword.

(** [s[i]] for a non-negative index: IndexError out of range. *)
Definition getitem {A} (s : list A) (i : nat) : result A :=
  match s !! i with
  | Some c => Ok c
  | None => Raise IndexError
  end.

(** [int(c)] for a string of one character: ValueError unless [c] is a
    decimal digit. *)
Definition int_of_char (U : unicode) (c : char) : result Z :=
  match todecimal U c with
  | Some d => Ok (Z.of_nat d)
  | None => Raise ValueError
  end.

(** [sum(f(i) for i in idx)], evaluated left to right. *)
Fixpoint sum_gen (f : nat -> result Z) (idx : list nat) : result Z :=
  match idx with
  | [] => Ok 0
  | i :: idx' => x ← f i; s ← sum_gen f idx'; Ok (x + s)
  end.

(** One lowercase hexadecimal digit, and [format(n, '04x')] for
    [n < 0x10000]. *)
Definition hex_digit (d : N) : N :=
  (if d <? 10 then 48 + d else 87 + d)%N.

Definition hex4 (n : N) : str :=
  [hex_digit (N.land (N.shiftr n 12) 15); hex_digit (N.land (N.shiftr n 8) 15);
   hex_digit (N.land (N.shiftr n 4) 15); hex_digit (N.land n 15)].

End Py.

Import Py.

(** ** DataValidator *)

Module DataValidator.

Section Validate.
Variable U : unicode.

(** [re.sub(r'[^\d]', '', piva)]: every character that is not a decimal
    digit is removed. *)
Definition strip_non_digits (piva : str) : str :=
  List.filter (isdecimal U) piva.

(** One turn of the loop [for i in range(1, 10, 2)]. *)
Definition even_step (piva : str) (even_sum : Z) (i : nat) : result Z :=
  c ← getitem piva i;
  d ← int_of_char U c;
  let digit := d * 2 in
  Ok (even_sum + (if digit <? 10 then digit else digit - 9)).

Fixpoint even_loop (piva : str) (even_sum : Z) (idx : list nat) : result Z :=
  match idx with
  | [] => Ok even_sum
  | i :: idx' => s ← even_step piva even_sum i; even_loop piva s idx'
  end.

(** The body of the [try] block. *)
Definition checksum_body (piva : str) : result bool :=
  odd_sum ← sum_gen (fun i => c ← getitem piva i; int_of_char U c)
                    [0; 2; 4; 6; 8]%nat;
  even_sum ← even_loop piva 0 [1; 3; 5; 7; 9]%nat;
  let total := odd_sum + even_sum in
  let check_digit := (10 - (total mod 10)) mod 10 in
  c ← getitem piva 10;
  last ← int_of_char U c;
  Ok (last =? check_digit).

Definition validate_partita_iva (piva : str) : result bool :=
  let piva := strip_non_digits piva in
  if negb (length piva =? 11)%nat then Ok false
  else
    match checksum_body piva with
    | Ok b => Ok b
    | Raise ValueError | Raise IndexError => Ok false
    | Raise e => Raise e
    end.

(** The claim's own description of the check, on the list of digit values
    that remain after stripping. *)
Definition digit_values (piva : str) : list Z :=
  omap (fun c => Z.of_nat <$> todecimal U c) piva.

Definition digit_at (ds : list Z) (i : nat) : Z := nth i ds 0.

Definition S_odd (ds : list Z) : Z :=
  digit_at ds 0 + digit_at ds 2 + digit_at ds 4 + digit_at ds 6 + digit_at ds 8.

Definition doubled_reduced (d : Z) : Z :=
  if 10 <=? 2 * d then 2 * d - 9 else 2 * d.

Definition S_even (ds : list Z) : Z :=
  doubled_reduced (digit_at ds 1) + doubled_reduced (digit_at ds 3)
  + doubled_reduced (digit_at ds 5) + doubled_reduced (digit_at ds 7)
  + doubled_reduced (digit_at ds 9).

Definition expected_check_digit (ds : list Z) : Z :=
  (10 - ((S_odd ds + S_even ds) mod 10)) mod 10.


End Validate.

End DataValidator.

(** ** RateLimiter *)

Module RateLimiter.

(** One entry of [rate_limits]: [{'calls': _, 'limit': _, 'window': _}]. *)
Record api_limit := ApiLimit {
  calls : Z;
  limit : Z;
  window : Z
}.

(** The fields of a [RateLimiter] object.  [api_calls] is created empty by
    [__init__] and never used again. *)
Record t := Make {
  api_calls : gmap str Z;
  rate_limits : gmap str api_limit;
  last_reset : Z
}.

Definition second : Z := 1000000.

(** [__init__], with [now] the reading of [datetime.now()]. *)
Definition init (now : Z) : t :=
  {| api_calls := ∅;
     rate_limits :=
       {[ lit "semrush" := ApiLimit 0 10 60;
          lit "serper" := ApiLimit 0 100 60;
          lit "openai" := ApiLimit 0 50 60 ]};
     last_reset := now |}.

Definition reset_entry (e : api_limit) : api_limit :=
  {| calls := 0; limit := limit e; window := window e |}.

(** [(now - self.last_reset).total_seconds() >= 60].  [total_seconds] is
    the correctly rounded quotient of the difference in microseconds by
    10^6; no difference below 60000000 rounds up to 60.0, so the test is
    the comparison of integers below. *)
Definition reset_due (last now : Z) : bool := 60 * second <=? now - last.

Definition _reset_counters_if_needed (self : t) (now : Z) : t :=
  if reset_due (last_reset self) now then
    {| api_calls := api_calls self;
       rate_limits := reset_entry <$> rate_limits self;
       last_reset := now |}
  else self.

Definition can_make_call (self : t) (api_name : str) (now : Z) : bool * t :=
  let self := _reset_counters_if_needed self now in
  match rate_limits self !! api_name with
  | None => (true, self)
  | Some e =>
      let current_calls := calls e in
      let limit := limit e in
      (current_calls <? limit, self)
  end.

Definition record_call (self : t) (api_name : str) : t :=
  match rate_limits self !! api_name with
  | Some e =>
      {| api_calls := api_calls self;
         rate_limits :=
           <[api_name := {| calls := calls e + 1; limit := limit e;
                            window := window e |}]> (rate_limits self);
         last_reset := last_reset self |}
  | None => self
  end.

(** [get_wait_time] reads the clock twice: [now1] inside [can_make_call],
    [now2] for [elapsed].  The waiting time is given in microseconds; the
    source returns it in seconds, the integer [0] on the first and last
    paths and [max(0, window - elapsed)] on the middle one. *)
Definition get_wait_time (self : t) (api_name : str) (now1 now2 : Z) : Z * t :=
  let '(ok, self) := can_make_call self api_name now1 in
  if ok then (0, self)
  else
    match rate_limits self !! api_name with
    | Some e =>
        let window := window e in
        let elapsed := now2 - last_reset self in
        (Z.max 0 (window * second - elapsed), self)
    | None => (0, self)
    end.

(** *** Runs of a limiter *)

(** The calls a client can make on a limiter. *)
Inductive op :=
| CanMakeCall (api_name : str) (now : Z)
| RecordCall (api_name : str)
| GetWaitTime (api_name : str) (now1 now2 : Z).

Definition step (self : t) (o : op) : t :=
  match o with
  | CanMakeCall a now => snd (can_make_call self a now)
  | RecordCall a => record_call self a
  | GetWaitTime a now1 now2 => snd (get_wait_time self a now1 now2)
  end.

Definition run (self : t) (ops : list op) : t := fold_left step ops self.

(** What a run looks like from outside: the start of the current window and
    the calls recorded since then, in order.  A clock reading taken by
    [can_make_call] (directly or through [get_wait_time]) 60 seconds or more
    after the start of the window opens a new, empty window. *)
Record window_view := View {
  window_start : Z;
  recorded : list str
}.

Definition observe_clock (v : window_view) (now : Z) : window_view :=
  if reset_due (window_start v) now then View now [] else v.

Definition observe (v : window_view) (o : op) : window_view :=
  match o with
  | CanMakeCall _ now => observe_clock v now
  | RecordCall a => View (window_start v) (recorded v ++ [a])
  | GetWaitTime _ now1 _ => observe_clock v now1
  end.

Definition history (t0 : Z) (ops : list op) : window_view :=
  fold_left observe ops (View t0 []).

(** The number of calls recorded for [api_name] in a list of recorded calls. *)
Definition count_calls (api_name : str) (l : list str) : Z :=
  Z.of_nat (length (List.filter (fun a => bool_decide (a = api_name)) l)).

(** The limits [__init__] configures. *)
Definition configured_limit (api_name : str) : option Z :=
  if bool_decide (api_name = lit "semrush") then Some 10
  else if bool_decide (api_name = lit "serper") then Some 100
  else if bool_decide (api_name = lit "openai") then Some 50
  else None.

(** The entry a limiter holds for [a] when [l] lists the calls recorded in
    the current window. *)
Definition entry_for (l : list str) (a : str) : option api_limit :=
  (fun L => ApiLimit (count_calls a l) L 60) <$> configured_limit a.

(** A limiter agrees with a view of its run. *)
Definition agrees (s : t) (v : window_view) : Prop :=
  api_calls s = ∅ /\
  last_reset s = window_start v /\
  forall a, rate_limits s !! a = entry_for (recorded v) a.

End RateLimiter.

(** ** CacheManager: the cache proper *)

Module CacheManager.

Section Cache.
(** The type of the cached data ([Any] in the source). *)
Variable V : Type.

(** The fields of a [CacheManager]: [cache] maps a key to the pair of the
    data and the time it was stored; [cache_duration] is a [timedelta]. *)
Record t := Make {
  cache : gmap str (V * Z);
  cache_duration : Z
}.

Definition hour : Z := 3600 * 1000000.

(** [__init__]: [timedelta(hours=cache_duration_hours)]. *)
Definition init (cache_duration_hours : Z) : t :=
  {| cache := ∅; cache_duration := cache_duration_hours * hour |}.

(** [d[k]] on a dict: KeyError when the key is absent. *)
Definition subscript {A} (d : gmap str A) (k : str) : result A :=
  match d !! k with
  | Some a => Ok a
  | None => Raise KeyError
  end.

(** [del d[k]]: KeyError when the key is absent. *)
Definition del {A} (d : gmap str A) (k : str) : result (gmap str A) :=
  match d !! k with
  | Some _ => Ok (delete k d)
  | None => Raise KeyError
  end.

(** [get], with [now] the reading of [datetime.now()].  The answer is the
    returned object ([None] for Python's [None]) or the exception raised,
    together with the manager after the call. *)
Definition get (self : t) (cache_key : str) (now : Z) : result (option V) * t :=
  if bool_decide (is_Some (cache self !! cache_key)) then
    match subscript (cache self) cache_key with
    | Raise e => (Raise e, self)
    | Ok (cached_data, timestamp) =>
        if now - timestamp <? cache_duration self then
          (Ok (Some cached_data), self)
        else
          match del (cache self) cache_key with
          | Raise e => (Raise e, self)
          | Ok c =>
              (Ok None, {| cache := c; cache_duration := cache_duration self |})
          end
    end
  else (Ok None, self).

(** [set], with [now] the reading of [datetime.now()]. *)
Definition set (self : t) (cache_key : str) (data : V) (now : Z) : t :=
  {| cache := <[cache_key := (data, now)]> (cache self);
     cache_duration := cache_duration self |}.

(** [clear_expired]: the keys whose age has reached the duration are
    collected, then deleted. *)
Definition clear_expired (self : t) (now : Z) : t :=
  {| cache :=
       filter (fun kv => ¬ (cache_duration self <= now - snd (snd kv)))
              (cache self);
     cache_duration := cache_duration self |}.

End Cache.

Arguments cache {V} _.
Arguments cache_duration {V} _.
Arguments get {V} _ _ _.
Arguments set {V} _ _ _ _.
Arguments clear_expired {V} _ _.

End CacheManager.

(** ** hashlib.md5 *)

(** MD5 (RFC 1321) on a list of bytes, with words as integers below 2^32. *)
Module MD5.

Definition mask32 : Z := 4294967295.

Definition add32 (a b : Z) : Z := Z.land (a + b) mask32.

Definition rotl32 (x n : Z) : Z :=
  Z.land (Z.lor (Z.shiftl x n) (Z.shiftr x (32 - n))) mask32.

Definition not32 (x : Z) : Z := Z.lxor x mask32.

(** [K[i] = floor(2^32 * abs(sin(i + 1)))]. *)
Definition K : list Z :=
  [3614090360; 3905402710; 606105819; 3250441966;
   4118548399; 1200080426; 2821735955; 4249261313;
   1770035416; 2336552879; 4294925233; 2304563134;
   1804603682; 4254626195; 2792965006; 1236535329;
   4129170786; 3225465664; 643717713; 3921069994;
   3593408605; 38016083; 3634488961; 3889429448;
   568446438; 3275163606; 4107603335; 1163531501;
   2850285829; 4243563512; 1735328473; 2368359562;
   4294588738; 2272392833; 1839030562; 4259657740;
   2763975236; 1272893353; 4139469664; 3200236656;
   681279174; 3936430074; 3572445317; 76029189;
   3654602809; 3873151461; 530742520; 3299628645;
   4096336452; 1126891415; 2878612391; 4237533241;
   1700485571; 2399980690; 4293915773; 2240044497;
   1873313359; 4264355552; 2734768916; 1309151649;
   4149444226; 3174756917; 718787259; 3951481745].

Definition S : list Z :=
  [7; 12; 17; 22; 7; 12; 17; 22; 7; 12; 17; 22; 7; 12; 17; 22;
   5; 9; 14; 20; 5; 9; 14; 20; 5; 9; 14; 20; 5; 9; 14; 20;
   4; 11; 16; 23; 4; 11; 16; 23; 4; 11; 16; 23; 4; 11; 16; 23;
   6; 10; 15; 21; 6; 10; 15; 21; 6; 10; 15; 21; 6; 10; 15; 21].

(** The bytes of a word, least significant first. *)
Definition le_bytes (n : nat) (x : Z) : list Z :=
  List.map (fun i => Z.land (Z.shiftr x (8 * Z.of_nat i)) 255) (seq 0 n).

Fixpoint le_word (bs : list Z) : Z :=
  match bs with
  | [] => 0
  | b :: bs' => Z.lor b (Z.shiftl (le_word bs') 8)
  end.

(** Padding: a bit 1, zeros up to 56 modulo 64, the length in bits. *)
Definition pad (msg : list Z) : list Z :=
  let len := Z.of_nat (length msg) in
  let zeros := Z.to_nat ((55 - len) mod 64) in
  msg ++ [128] ++ repeat 0 zeros ++ le_bytes 8 (Z.land (8 * len) 18446744073709551615).

(** The sixteen words of a block. *)
Definition words (block : list Z) : list Z :=
  List.map (fun i => le_word (firstn 4 (skipn (4 * i) block))) (seq 0 16).

Record state := State { rA : Z; rB : Z; rC : Z; rD : Z }.

Definition round (M : list Z) (st : state) (i : nat) : state :=
  let '(State a b c d) := st in
  let f :=
    if (i <? 16)%nat then Z.lor (Z.land b c) (Z.land (not32 b) d)
    else if (i <? 32)%nat then Z.lor (Z.land d b) (Z.land (not32 d) c)
    else if (i <? 48)%nat then Z.lxor (Z.lxor b c) d
    else Z.lxor c (Z.lor b (not32 d)) in
  let g :=
    if (i <? 16)%nat then i
    else if (i <? 32)%nat then ((5 * i + 1) mod 16)%nat
    else if (i <? 48)%nat then ((3 * i + 5) mod 16)%nat
    else ((7 * i) mod 16)%nat in
  let f := add32 (add32 (add32 f a) (nth i K 0)) (nth g M 0) in
  State d (add32 b (rotl32 f (nth i S 0))) b c.

Definition process_block (st : state) (block : list Z) : state :=
  let st' := fold_left (round (words block)) (seq 0 64) st in
  State (add32 (rA st) (rA st')) (add32 (rB st) (rB st'))
        (add32 (rC st) (rC st')) (add32 (rD st) (rD st')).

Fixpoint process (fuel : nat) (st : state) (data : list Z) : state :=
  match fuel, data with
  | O, _ | _, [] => st
  | Datatypes.S fuel', _ =>
      process fuel' (process_block st (firstn 64 data)) (skipn 64 data)
  end.

Definition digest (msg : list Z) : list Z :=
  let data := pad msg in
  let st := process (length data) (State 1732584193 4023233417 2562383102 271733878) data in
  le_bytes 4 (rA st) ++ le_bytes 4 (rB st) ++ le_bytes 4 (rC st) ++ le_bytes 4 (rD st).

Definition hex_byte (b : Z) : str :=
  [hex_digit (Z.to_N (Z.shiftr b 4)); hex_digit (Z.to_N (Z.land b 15))].

(** [hashlib.md5(data).hexdigest()]. *)
Definition hexdigest (data : list N) : str :=
  flat_map hex_byte (digest (List.map Z.of_N data)).

End MD5.

(** ** CacheManager: the cache key *)

Module CacheKey.

(** *** Strings *)

(** The order of [str]: lexicographic on code points. *)
Definition str_compare (a b : str) : comparison := list_compare N.compare a b.

Definition str_le (a b : str) : bool :=
  match str_compare a b with Gt => false | _ => true end.

(** [sep.join(l)]. *)
Fixpoint join (sep : str) (l : list str) : str :=
  match l with
  | [] => []
  | [x] => x
  | x :: l' => x ++ sep ++ join sep l'
  end.

(** [repr] of an [int]: decimal digits, a minus sign when negative. *)
Fixpoint uint_chars (u : Decimal.uint) : str :=
  match u with
  | Decimal.Nil => []
  | Decimal.D0 u => 48%N :: uint_chars u
  | Decimal.D1 u => 49%N :: uint_chars u
  | Decimal.D2 u => 50%N :: uint_chars u
  | Decimal.D3 u => 51%N :: uint_chars u
  | Decimal.D4 u => 52%N :: uint_chars u
  | Decimal.D5 u => 53%N :: uint_chars u
  | Decimal.D6 u => 54%N :: uint_chars u
  | Decimal.D7 u => 55%N :: uint_chars u
  | Decimal.D8 u => 56%N :: uint_chars u
  | Decimal.D9 u => 57%N :: uint_chars u
  end.

Definition repr_int (z : Z) : str :=
  match Z.to_int z with
  | Decimal.Pos u => uint_chars u
  | Decimal.Neg u => 45%N :: uint_chars u
  end.

(** *** json.dumps *)

(** The replacement [json.encoder] makes for one character with
    [ensure_ascii=True]: printable ASCII other than the quote and the
    backslash stands for itself, the usual escapes are short, every other
    character is written [\uXXXX], as a surrogate pair beyond the BMP. *)
Definition escape_char (c : N) : str :=
  if (c =? 34)%N then [92; 34]%N
  else if (c =? 92)%N then lit "\\"
  else if (c =? 10)%N then lit "\n"
  else if (c =? 13)%N then lit "\r"
  else if (c =? 9)%N then lit "\t"
  else if (c =? 8)%N then lit "\b"
  else if (c =? 12)%N then lit "\f"
  else if ((32 <=? c) && (c <=? 126))%N then [c]
  else if (c <? 65536)%N then lit "\u" ++ hex4 c
  else
    let n := (c - 65536)%N in
    let s1 := N.lor 55296 (N.land (N.shiftr n 10) 1023) in
    let s2 := N.lor 56320 (N.land n 1023) in
    lit "\u" ++ hex4 s1 ++ lit "\u" ++ hex4 s2.

Definition encode_basestring_ascii (s : str) : str :=
  [34%N] ++ flat_map escape_char s ++ [34%N].

(** The values [json.dumps] is given: [None], booleans, integers, strings,
    lists and dicts with string keys.  A dict is the list of its items in
    insertion order; its keys are pairwise distinct. *)
#[warnings="-register-all"] Inductive json :=
| JNone
| JBool (b : bool)
| JInt (z : Z)
| JStr (s : str)
| JList (l : list json)
| JDict (items : list (str * json)).

(** [sorted(items)] on the items of a dict: a stable sort on the keys (the
    keys of a dict differ, so the values are never compared). *)
Fixpoint insert_item {A} (x : str * A) (l : list (str * A)) : list (str * A) :=
  match l with
  | [] => [x]
  | y :: l' =>
      if str_le (fst x) (fst y) then x :: l else y :: insert_item x l'
  end.

Definition sorted_items {A} (l : list (str * A)) : list (str * A) :=
  fold_right insert_item [] l.

Definition render_item (kv : str * str) : str :=
  encode_basestring_ascii (fst kv) ++ lit ": " ++ snd kv.

(** [json.dumps(j, sort_keys=True)] with the default separators.  The items
    of a dict are rendered and then sorted on their keys, which gives the
    text the encoder produces by sorting first: the sort looks at keys only. *)
Fixpoint dumps (j : json) : str :=
  match j with
  | JNone => lit "null"
  | JBool true => lit "true"
  | JBool false => lit "false"
  | JInt z => repr_int z
  | JStr s => encode_basestring_ascii s
  | JList l => lit "[" ++ join (lit ", ") (List.map dumps l) ++ lit "]"
  | JDict items =>
      lit "{"
      ++ join (lit ", ")
           (List.map render_item
              (sorted_items
                 (List.map (fun kv => match kv with (k, v) => (k, dumps v) end)
                    items)))
      ++ lit "}"
  end.

(** *** str.encode() *)

(** UTF-8 of one code point; a surrogate cannot be encoded. *)
Definition utf8_char (c : N) : result (list N) :=
  if (c <? 128)%N then Ok [c]
  else if (c <? 2048)%N then
    Ok [N.lor 192 (N.shiftr c 6); N.lor 128 (N.land c 63)]
  else if ((55296 <=? c) && (c <=? 57343))%N then Raise UnicodeEncodeError
  else if (c <? 65536)%N then
    Ok [N.lor 224 (N.shiftr c 12); N.lor 128 (N.land (N.shiftr c 6) 63);
        N.lor 128 (N.land c 63)]
  else
    Ok [N.lor 240 (N.shiftr c 18); N.lor 128 (N.land (N.shiftr c 12) 63);
        N.lor 128 (N.land (N.shiftr c 6) 63); N.lor 128 (N.land c 63)].

Fixpoint encode (s : str) : result (list N) :=
  match s with
  | [] => Ok []
  | c :: s' => b ← utf8_char c; bs ← encode s'; Ok (b ++ bs)
  end.

(** *** get_cache_key *)

(** [params] is the list of the items of the dict, in insertion order. *)
Definition get_cache_key (api_name : str) (params : list (str * json))
  : result str :=
  let params_str := dumps (JDict params) in
  let cache_input := api_name ++ lit ":" ++ params_str in
  data ← encode cache_input;
  Ok (MD5.hexdigest data).




(** The order in which [sorted] leaves two items. *)
Definition key_le {A} (x y : str * A) : Prop := str_le (fst x) (fst y) = true.

End CacheKey.

(** ** The regular expressions of the source *)

(** The patterns of [utils.py] are sequences of greedy repetitions of a
    one-character class, word boundaries and anchors; the only group spans
    its whole pattern.  [Re] is the backtracking matcher of [re] on that
    fragment. *)
Module Re.

Inductive atom :=
| Class (p : char -> bool) (lo : nat) (hi : option nat)
| WordBoundary
| Start
| End_.

Definition regex := list atom.

Section Matcher.
Variable U : unicode.

Definition word_at (s : str) (i : nat) : bool :=
  match s !! i with
  | Some c => isword U c
  | None => false
  end.

(** [\b]: exactly one of the two neighbours is a word character. *)
Definition boundary (s : str) (pos : nat) : bool :=
  xorb (match pos with O => false | S i => word_at s i end) (word_at s pos).

(** [$] without [re.MULTILINE]: the end, or just before a final newline. *)
Definition at_end (s : str) (pos : nat) : bool :=
  (pos =? length s)%nat
  || ((S pos =? length s)%nat && bool_decide (s !! pos = Some 10%N)).

(** The character at [i] exists and is in the class. *)
Definition in_class (s : str) (p : char -> bool) (i : nat) : Prop :=
  exists c, s !! i = Some c /\ p c = true.

(** How many characters from [pos] on are in the class, up to [cap]. *)
Fixpoint run_length (p : char -> bool) (s : str) (pos cap : nat) : nat :=
  match cap with
  | O => O
  | S cap' =>
      match s !! pos with
      | Some c => if p c then S (run_length p s (S pos) cap') else O
      | None => O
      end
  end.

(** The greedy choice: [n] repetitions first, then fewer, down to [lo]. *)
Fixpoint try_down (k : nat -> option nat) (lo n : nat) : option nat :=
  if (n <? lo)%nat then None
  else
    match k n with
    | Some e => Some e
    | None =>
        match n with
        | O => None
        | S n' => try_down k lo n'
        end
    end.

(** The end of the match of [r] that starts at [pos], if there is one. *)
Fixpoint match_here (r : regex) (s : str) (pos : nat) : option nat :=
  match r with
  | [] => Some pos
  | Class p lo hi :: r' =>
      let cap := match hi with Some h => h | None => length s end in
      try_down (fun n => match_here r' s (pos + n)) lo (run_length p s pos cap)
  | WordBoundary :: r' =>
      if boundary s pos then match_here r' s pos else None
  | Start :: r' =>
      if (pos =? 0)%nat then match_here r' s pos else None
  | End_ :: r' =>
      if at_end s pos then match_here r' s pos else None
  end.

(** [re.match(r, s)]: a match at position 0. *)
Definition match_ (r : regex) (s : str) : option (nat * nat) :=
  (fun e => (O, e)) <$> match_here r s 0.

(** [re.search(r, s)]: the match at the first position that has one. *)
Fixpoint search_from (r : regex) (s : str) (pos fuel : nat)
  : option (nat * nat) :=
  match match_here r s pos with
  | Some e => Some (pos, e)
  | None =>
      match fuel with
      | O => None
      | S fuel' => search_from r s (S pos) fuel'
      end
  end.

Definition search (r : regex) (s : str) : option (nat * nat) :=
  search_from r s 0 (length s).

(** [m.group()]. *)
Definition group (s : str) (m : nat * nat) : str :=
  take (snd m - fst m) (drop (fst m) s).

(** [re.sub(r, '', s)] for a pattern that matches no empty string: the
    matches are found from left to right and left out. *)
Fixpoint sub_from (r : regex) (s rest : str) (pos skip : nat) : str :=
  match rest with
  | [] => []
  | c :: rest' =>
      match skip with
      | S skip' => sub_from r s rest' (S pos) skip'
      | O =>
          match match_here r s pos with
          | Some e =>
              if (pos <? e)%nat then sub_from r s rest' (S pos) (e - pos - 1)
              else c :: sub_from r s rest' (S pos) 0
          | None => c :: sub_from r s rest' (S pos) 0
          end
      end
  end.

Definition sub_empty (r : regex) (s : str) : str := sub_from r s s 0 0.

(** What it means for [r] to match [s] from [pos] to [e], said without the
    matcher. *)
Inductive matches (s : str) : regex -> nat -> nat -> Prop :=
| matches_nil pos : matches s [] pos pos
| matches_class p lo hi r pos n e :
    (lo <= n)%nat ->
    (forall h, hi = Some h -> (n <= h)%nat) ->
    (forall j, (j < n)%nat -> in_class s p (pos + j)) ->
    matches s r (pos + n) e ->
    matches s (Class p lo hi :: r) pos e
| matches_boundary r pos e :
    boundary s pos = true -> matches s r pos e ->
    matches s (WordBoundary :: r) pos e
| matches_start r e :
    matches s r 0 e -> matches s (Start :: r) 0 e
| matches_end r pos e :
    at_end s pos = true -> matches s r pos e ->
    matches s (End_ :: r) pos e.

End Matcher.

End Re.

(** ** InputProcessor *)

Module InputProcessor.
Import Re.

(** [str.isspace]: the characters [str.strip()] removes. *)
Definition isspace (c : char) : bool :=
  (((9 <=? c) && (c <=? 13)) || ((28 <=? c) && (c <=? 32))
   || (c =? 133) || (c =? 160) || (c =? 5760)
   || ((8192 <=? c) && (c <=? 8202)) || (c =? 8232) || (c =? 8233)
   || (c =? 8239) || (c =? 8287) || (c =? 12288))%N.

Fixpoint lstrip (s : str) : str :=
  match s with
  | c :: s' => if isspace c then lstrip s' else s
  | [] => []
  end.

Definition rstrip (s : str) : str := rev (lstrip (rev s)).

Definition strip (s : str) : str := rstrip (lstrip s).

(** [s.startswith(prefix)]. *)
Fixpoint startswith (s prefix : str) : bool :=
  match prefix, s with
  | [], _ => true
  | _ :: _, [] => false
  | p :: prefix', c :: s' => (p =? c)%N && startswith s' prefix'
  end.

(** [s.replace(old, '')]: the occurrences of [old] are found from left to
    right, without overlap, and left out. *)
Fixpoint replace_from (old s : str) (skip : nat) : str :=
  match s with
  | [] => []
  | c :: s' =>
      match skip with
      | S skip' => replace_from old s' skip'
      | O =>
          if startswith s old then replace_from old s' (length old - 1)
          else c :: replace_from old s' 0
      end
  end.

Definition replace_empty (s old : str) : str :=
  match old with
  | [] => s
  | _ => replace_from old s 0
  end.

(** The character classes of the patterns. *)
Definition alnum (c : char) : bool :=
  (((97 <=? c) && (c <=? 122)) || ((65 <=? c) && (c <=? 90))
   || ((48 <=? c) && (c <=? 57)))%N.

Definition alnum_hyphen (c : char) : bool := alnum c || (c =? 45)%N.

Definition alpha (c : char) : bool :=
  (((97 <=? c) && (c <=? 122)) || ((65 <=? c) && (c <=? 90)))%N.

Definition dot (c : char) : bool := (c =? 46)%N.

Definition once (p : char -> bool) : atom := Class p 1 (Some 1%nat).

(** [[a-zA-Z0-9][a-zA-Z0-9-]{1,61}[a-zA-Z0-9]\.[a-zA-Z]{2,}] *)
Definition domain_body : regex :=
  [once alnum; Class alnum_hyphen 1 (Some 61%nat); once alnum; once dot;
   Class alpha 2 None].

(** [^...$] *)
Definition domain_pattern : regex := [Start] ++ domain_body ++ [End_].

(** [\b(...)\b]: the group is the whole match. *)
Definition domain_in_text_pattern : regex :=
  [WordBoundary] ++ domain_body ++ [WordBoundary].

(** The dict [identify_input_type] returns.  A confidence is the decimal
    number its literal is written as. *)
Record identified := Identified {
  original_input : str;
  input_type : str;
  extracted_data : gmap str str;
  confidence : Q
}.

Section Identify.
Variable U : unicode.
(** [urlparse(url).netloc]: the network location of the URL, or the
    [ValueError] [urlparse] raises on a URL it rejects.  [urllib] belongs to
    the interpreter; the function is a parameter. *)
Variable urlparse_netloc : str -> result str.

(** [\b\d{11}\b] *)
Definition piva_pattern : regex :=
  [WordBoundary; Class (isdecimal U) 11 (Some 11%nat); WordBoundary].

Definition identify_input_type (user_input : str) : result identified :=
  let user_input := strip user_input in
  if startswith user_input (lit "http://")
     || startswith user_input (lit "https://") then
    netloc ← urlparse_netloc user_input;
    Ok {| original_input := user_input;
          input_type := lit "url";
          extracted_data :=
            <[lit "domain" := netloc]> (<[lit "url" := user_input]> ∅);
          confidence := 1 |}
  else
    match search U piva_pattern user_input with
    | Some piva_match =>
        let company_name := strip (sub_empty U piva_pattern user_input) in
        let data := <[lit "partita_iva" := group user_input piva_match]> ∅ in
        Ok {| original_input := user_input;
              input_type := lit "partita_iva";
              extracted_data :=
                match company_name with
                | [] => data
                | _ => <[lit "company_name" := company_name]> data
                end;
              confidence := 9 # 10 |}
    | None =>
        match match_ U domain_pattern user_input with
        | Some _ =>
            Ok {| original_input := user_input;
                  input_type := lit "domain";
                  extracted_data := <[lit "domain" := user_input]> ∅;
                  confidence := 8 # 10 |}
        | None =>
            match search U domain_in_text_pattern user_input with
            | Some domain_in_text =>
                let g := group user_input domain_in_text in
                Ok {| original_input := user_input;
                      input_type := lit "company_with_domain";
                      extracted_data :=
                        <[lit "company_name" :=
                            strip (replace_empty user_input g)]>
                          (<[lit "domain" := g]> ∅);
                      confidence := 7 # 10 |}
            | None =>
                Ok {| original_input := user_input;
                      input_type := lit "company_name";
                      extracted_data :=
                        <[lit "company_name" := user_input]> ∅;
                      confidence := 5 # 10 |}
            end
        end
    end.

(** The four tests, said without the matcher. *)
Definition is_url (u : str) : Prop :=
  startswith u (lit "http://") || startswith u (lit "https://") = true.

Definition has_piva (u : str) : Prop :=
  exists i e, (i <= length u)%nat /\ matches U u piva_pattern i e.

Definition is_domain (u : str) : Prop :=
  exists e, matches U u domain_pattern 0 e.


(** The call returns a dict with this type and this confidence. *)
Definition classified (o : result identified) (ty : str) (conf : Q) : Prop :=
  exists r, o = Ok r /\ input_type r = ty /\ confidence r = conf.

End Identify.

(** *** A model of [urlparse(url).netloc] for evaluation

    The part of [urllib.parse.urlsplit] an http or https URL goes through:
    tabs and line breaks are removed, the network location runs from the
    two slashes to the first of [/], [?] and [#], and a location with one
    kind of square bracket and not the other is rejected with ValueError.
    Later releases reject more (ill-formed bracketed hosts, characters that
    normalise to delimiters); [netloc_core] is used only on URLs without
    brackets or with a lone bracket, where the releases agree. *)
Definition is_delim (c : char) : bool :=
  ((c =? 47) || (c =? 63) || (c =? 35))%N.

Fixpoint take_netloc (s : str) : str :=
  match s with
  | [] => []
  | c :: s' => if is_delim c then [] else c :: take_netloc s'
  end.

Fixpoint after_slashes (s : str) : str :=
  match s with
  | [] => []
  | c :: s' => if (c =? 58)%N then drop 2 s' else after_slashes s'
  end.

Definition netloc_core (url : str) : result str :=
  let url := List.filter (fun c => negb ((c =? 9) || (c =? 10) || (c =? 13))%N) url in
  let netloc := take_netloc (after_slashes url) in
  let has c := existsb (N.eqb c) netloc in
  if xorb (has 91%N) (has 93%N) then Raise ValueError else Ok netloc.

End InputProcessor.

(** ** AsyncHelpers *)

Module AsyncHelpers.

Section Retry.
(** The results of [func] and the exceptions it raises. *)
Variables (A E : Type).
(** Whether an exception is an instance of [Exception]; [except Exception]
    lets the others pass ([KeyboardInterrupt], [CancelledError], ...). *)
Variable is_Exception : E -> bool.

Inductive outcome :=
| Returns (v : A)
| Raises (e : E).

(** How a call of [retry_async_call] ends.  [raise None] is a [TypeError]. *)
Inductive final :=
| Returned (v : A)
| Raised (e : E)
| RaisedTypeError.

(** [func k] is the outcome of the invocation number [k] of
    [await func(...)], counting from 0. *)
Variable func : nat -> outcome.

(** What a call does: how it ends, how many times [func] was invoked and
    the delays passed to [asyncio.sleep], in order.  A delay is the number
    the float stands for; doubling a float is exact. *)
Record run := Run {
  ending : final;
  invocations : nat;
  sleeps : list Q
}.

(** The loop [for attempt in range(max_retries)] from [attempt] on, with
    [todo] turns left, and the [raise last_exception] after it. *)
Fixpoint retry_loop (max_retries : Z) (todo : nat) (attempt : nat)
    (delay : Q) (last_exception : option E) : run :=
  match todo with
  | O =>
      match last_exception with
      | Some e => Run (Raised e) attempt []
      | None => Run RaisedTypeError attempt []
      end
  | S todo' =>
      match func attempt with
      | Returns v => Run (Returned v) (S attempt) []
      | Raises e =>
          if is_Exception e then
            if Z.of_nat attempt <? max_retries - 1 then
              let r := retry_loop max_retries todo' (S attempt)
                         (delay * 2)%Q (Some e) in
              Run (ending r) (invocations r) (delay :: sleeps r)
            else
              retry_loop max_retries todo' (S attempt) delay (Some e)
          else Run (Raised e) (S attempt) []
      end
  end.

Definition retry_async_call (max_retries : Z) (delay : Q) : run :=
  retry_loop max_retries (Z.to_nat max_retries) 0 delay None.

(** The invocation number [j] raises an exception that [except Exception]
    catches. *)
Definition fails (j : nat) : Prop :=
  exists e, func j = Raises e /\ is_Exception e = true.

(** The delays of [n] retries that start from [delay] and double. *)
Fixpoint backoff (delay : Q) (n : nat) : list Q :=
  match n with
  | O => []
  | S n' => delay :: backoff (delay * 2)%Q n'
  end.

End Retry.

Arguments Returns {A E} v.
Arguments Raises {A E} e.
Arguments Returned {A E} v.
Arguments Raised {A E} e.
Arguments RaisedTypeError {A E}.
Arguments ending {A E} r.
Arguments invocations {A E} r.
Arguments sleeps {A E} r.
Arguments fails {A E} is_Exception func j.
Arguments retry_async_call {A E} is_Exception func max_retries delay.
Arguments retry_loop {A E} is_Exception func max_retries todo attempt delay last_exception.

End AsyncHelpers.

(** ** BusinessAnalyzer *)

Module BusinessAnalyzer.
Import Re InputProcessor.

(** The five agents, in the order of the steps of [analyze_company]. *)
Inductive step := SEMRush | Competitors | Social | Financial | Report.

Section Analyzer.
(** The dicts the agents return ([Dict[str, Any]]). *)
Variable V : Type.
(** [d["domain"]] when ["domain" in d]. *)
Variable domain_of : V -> option str.
Variable U : unicode.
Variable urlparse_netloc : str -> result str.

(** The dict [results].  [analysis_results] lists its items in insertion
    order; [error] is the exception whose text [results["error"]] holds. *)
Record results := Results {
  timestamp : Z;
  input : str;
  company_name : str;
  website : str;
  analysis_results : list (str * V);
  final_report : option str;
  error : option exn
}.

(** An awaited call of an agent, with its arguments. *)
Inductive call :=
| CallSEMRush (user_input : str)
| CallCompetitors (company_name : str)
| CallSocial (company_name website : str)
| CallFinancial (partita_iva company_name : str)
| CallReport (all_data : results).

Definition step_of (c : call) : step :=
  match c with
  | CallSEMRush _ => SEMRush
  | CallCompetitors _ => Competitors
  | CallSocial _ _ => Social
  | CallFinancial _ _ => Financial
  | CallReport _ => Report
  end.

(** What a run does, in order: a message given to [progress_callback], the
    start of an awaited call, its return. *)
Inductive event :=
| Progress (message : str)
| Started (c : call)
| Finished (c : call).

(** The agents: what the awaited coroutine returns or raises.  The SEMRush
    agent is [fetch_and_analyze] once it has a domain, and answers
    [no_domain] without one. *)
Variable fetch_and_analyze : str -> result V.
Variable no_domain : V.
Variable search_competitors : str -> result V.
Variable find_social_profiles : str -> str -> result V.
Variable analyze_financial_data : str -> str -> result V.
Variable generate_comprehensive_report : results -> result str.
(** [progress_callback], when one is given. *)
Variable progress_callback : option (str -> result unit).

Definition is_http (s : str) : bool :=
  startswith s (lit "http://") || startswith s (lit "https://").

Definition contains (c : char) (s : str) : bool := existsb (N.eqb c) s.

(** [SEMRushAgent.get_domain_from_input] *)
Definition get_domain_from_input (user_input : str) : result (option str) :=
  if is_http user_input then
    netloc ← urlparse_netloc user_input; Ok (Some netloc)
  else if contains 46%N user_input && negb (contains 32%N user_input) then
    Ok (Some (replace_empty user_input (lit "www.")))
  else Ok None.

(** [SEMRushAgent.analyze_company] *)
Definition semrush_analyze_company (user_input : str) : result V :=
  domain ← get_domain_from_input user_input;
  match domain with
  | None | Some [] => Ok no_domain
  | Some domain => fetch_and_analyze domain
  end.

(** [\d{11}] *)
Definition eleven_digits : regex := [Class (isdecimal U) 11 (Some 11%nat)].

Definition _extract_company_name (user_input : str) : result str :=
  if is_http user_input then
    domain ← urlparse_netloc user_input;
    Ok (replace_empty
          (replace_empty (replace_empty domain (lit "www.")) (lit ".com"))
          (lit ".it"))
  else
    match search U eleven_digits user_input with
    | Some _ => Ok (lit "Azienda da P.IVA")
    | None => Ok user_input
    end.

Definition _extract_partita_iva (user_input : str) : str :=
  match search U eleven_digits user_input with
  | Some piva_match => group user_input piva_match
  | None => []
  end.

(** The body of the [try] block runs on the dict [results], adds to the
    trace and may raise: what was written to the dict before stays. *)
Definition M (A : Type) : Type := results -> list event * results * result A.

Definition ret {A} (a : A) : M A := fun st => ([], st, Ok a).

Definition bind {A B} (m : M A) (k : A -> M B) : M B :=
  fun st =>
    match m st with
    | (tr, st', Ok a) =>
        match k a st' with
        | (tr', st'', r) => (tr ++ tr', st'', r)
        end
    | (tr, st', Raise e) => (tr, st', Raise e)
    end.

Definition lift {A} (r : result A) : M A := fun st => ([], st, r).

Definition get_results : M results := fun st => ([], st, Ok st).

Definition update (f : results -> results) : M unit :=
  fun st => ([], f st, Ok tt).

(** [await agent.method(...)]: the call starts, and returns or raises. *)
Definition await {A} (c : call) (r : result A) : M A :=
  fun st =>
    (Started c :: match r with Ok _ => [Finished c] | Raise _ => [] end, st, r).

(** [if progress_callback: progress_callback(message)] *)
Definition progress (message : str) : M unit :=
  match progress_callback with
  | Some f => fun st => ([Progress message], st, f message)
  | None => ret tt
  end.

Definition set_analysis (key : str) (v : V) (r : results) : results :=
  Results (timestamp r) (input r) (company_name r) (website r)
          (analysis_results r ++ [(key, v)]) (final_report r) (error r).

Definition set_website (d : str) (r : results) : results :=
  Results (timestamp r) (input r) (company_name r) d
          (analysis_results r) (final_report r) (error r).

Definition set_company_name (n : str) (r : results) : results :=
  Results (timestamp r) (input r) n (website r)
          (analysis_results r) (final_report r) (error r).

Definition set_final_report (t : str) (r : results) : results :=
  Results (timestamp r) (input r) (company_name r) (website r)
          (analysis_results r) (Some t) (error r).

Definition set_error (e : exn) (r : results) : results :=
  Results (timestamp r) (input r) (company_name r) (website r)
          (analysis_results r) (final_report r) (Some e).

Definition try_body (user_input : str) : M unit :=
  bind (progress (lit "Analisi SEO e traffico con SEMRush...")) (fun _ =>
  bind (await (CallSEMRush user_input) (semrush_analyze_company user_input))
    (fun semrush_results =>
  bind (update (set_analysis (lit "semrush") semrush_results)) (fun _ =>
  bind (match domain_of semrush_results with
        | Some d => update (set_website d)
        | None => ret tt
        end) (fun _ =>
  bind (progress (lit "Ricerca competitor con Serper.dev...")) (fun _ =>
  bind (lift (_extract_company_name user_input)) (fun company_name =>
  bind (update (set_company_name company_name)) (fun _ =>
  bind (await (CallCompetitors company_name)
          (search_competitors company_name)) (fun competitor_results =>
  bind (update (set_analysis (lit "competitors") competitor_results)) (fun _ =>
  bind (progress (lit "Analisi profili social media...")) (fun _ =>
  bind get_results (fun r =>
  bind (await (CallSocial company_name (website r))
          (find_social_profiles company_name (website r)))
    (fun social_results =>
  bind (update (set_analysis (lit "social") social_results)) (fun _ =>
  bind (progress (lit "Ricerca dati finanziari...")) (fun _ =>
  let partita_iva := _extract_partita_iva user_input in
  bind (await (CallFinancial partita_iva company_name)
          (analyze_financial_data partita_iva company_name))
    (fun financial_results =>
  bind (update (set_analysis (lit "financial") financial_results)) (fun _ =>
  bind (progress (lit "Generazione report finale...")) (fun _ =>
  bind get_results (fun r =>
  bind (await (CallReport r) (generate_comprehensive_report r))
    (fun final_report =>
  update (set_final_report final_report)
  ))))))))))))))))))).

(** [analyze_company], with [now] the reading of [datetime.now()]: the
    events of the run and the dict returned. *)
Definition analyze_company (user_input : str) (now : Z)
  : list event * results :=
  let results := Results now user_input [] [] [] None None in
  match try_body user_input results with
  | (tr, st, Ok _) => (tr, st)
  | (tr, st, Raise e) => (tr, set_error e st)
  end.

(** The starts and returns of the agents in a trace, as steps. *)
Inductive mark := Start_ (s : step) | Return_ (s : step).

Definition marks (tr : list event) : list mark :=
  omap (fun ev =>
          match ev with
          | Progress _ => None
          | Started c => Some (Start_ (step_of c))
          | Finished c => Some (Return_ (step_of c))
          end) tr.

(** The order of the steps when all five run. *)
Definition full_order : list mark :=
  [Start_ SEMRush; Return_ SEMRush; Start_ Competitors; Return_ Competitors;
   Start_ Social; Return_ Social; Start_ Financial; Return_ Financial;
   Start_ Report; Return_ Report].

End Analyzer.

End BusinessAnalyzer.

(** ** RateLimiter: a client that asks before it calls *)

Module RateLimiterClient.
Import RateLimiter.

(** The runs of a client that records a call only right after
    [can_make_call] has allowed it; it may check and ask for waiting times
    as it likes. *)
Inductive obeys (t0 : Z) : list op -> Prop :=
| obeys_nil : obeys t0 []
| obeys_check ops a now :
    obeys t0 ops -> obeys t0 (ops ++ [CanMakeCall a now])
| obeys_wait ops a now1 now2 :
    obeys t0 ops -> obeys t0 (ops ++ [GetWaitTime a now1 now2])
| obeys_record ops a now :
    obeys t0 ops ->
    fst (can_make_call (run (init t0) ops) a now) = true ->
    obeys t0 (ops ++ [CanMakeCall a now; RecordCall a]).

End RateLimiterClient.

(** ** Shapes of text used in the further properties *)

Module Shapes.


End Shapes.

(** ** DataValidator: domains and company names *)

Module DataValidatorMore.
Import Re InputProcessor.

(** [validate_domain]: [bool(re.match(domain_pattern, domain))], with the
    pattern of [identify_input_type]. *)
Definition validate_domain (U : unicode) (domain : str) : bool :=
  match match_ U domain_pattern domain with
  | Some _ => true
  | None => false
  end.

(** The class of the first [re.sub]: angle brackets, both quotes, slash,
    backslash, braces, parentheses and the semicolon. *)
Definition dangerous (c : char) : bool :=
  ((c =? 60) || (c =? 62) || (c =? 34) || (c =? 39) || (c =? 47)
   || (c =? 92) || (c =? 123) || (c =? 125) || (c =? 40) || (c =? 41)
   || (c =? 59))%N.

(** The first [re.sub]: the characters of the class are left out. *)
Definition remove_dangerous (name : str) : str :=
  List.filter (fun c => negb (dangerous c)) name.

(** [re.sub(r'\s+', ' ', s)]: every run of whitespace becomes one space.
    [in_run] tells that the character before was whitespace. *)
Fixpoint collapse_from (s : str) (in_run : bool) : str :=
  match s with
  | [] => []
  | c :: s' =>
      if isspace c then
        if in_run then collapse_from s' true else 32%N :: collapse_from s' true
      else c :: collapse_from s' false
  end.

Definition collapse_spaces (s : str) : str := collapse_from s false.

Definition sanitize_company_name (name : str) : str :=
  let sanitized := remove_dangerous name in
  let sanitized := strip (collapse_spaces sanitized) in
  sanitized.

(** Text in which whitespace is single spaces between other characters,
    and nothing is dangerous. *)
Definition spaces_are_plain (s : str) : Prop :=
  forall c, c ∈ s -> isspace c = true -> c = 32%N.

Definition no_double_space (s : str) : Prop :=
  forall l1 a b l2, s = l1 ++ a :: b :: l2 ->
    isspace a = true -> isspace b = false.

Definition single_spaced (s : str) : Prop :=
  spaces_are_plain s /\
  no_double_space s /\
  (forall c l, s = c :: l -> isspace c = false) /\
  (forall l c, s = l ++ [c] -> isspace c = false).

Definition harmless (s : str) : Prop :=
  Forall (fun c => dangerous c = false) s.

End DataValidatorMore.

(** ** The shape of a domain *)

Module DomainShape.
Import InputProcessor.

(** A letter or digit, one to sixty-one letters, digits or hyphens, a
    letter or digit, a dot, and two letters or more. *)
Definition domain_shaped (d : str) : Prop :=
  exists a mid b tld,
    d = a :: mid ++ b :: 46%N :: tld /\
    alnum a = true /\
    Forall (fun c => alnum_hyphen c = true) mid /\
    (1 <= length mid <= 61)%nat /\
    alnum b = true /\
    Forall (fun c => alpha c = true) tld /\
    (2 <= length tld)%nat.

End DomainShape.

(** ** AsyncHelpers: the time slept *)

Module AsyncSleep.

(** The sum of the delays passed to [asyncio.sleep]. *)
Definition total_sleep (l : list Q) : Q := fold_right Qplus 0%Q l.

End AsyncSleep.
(** * Part II: properties *)

(** ** DataValidator *)

Module DataValidatorProps.
Import DataValidator.

Section Validate.
Variable U : unicode.

Lemma digit_values_strip (piva : str) :
  digit_values U (strip_non_digits U piva) = digit_values U piva.
Proof.
  unfold digit_values, strip_non_digits, isdecimal.
  induction piva as [|c piva IH]; simpl; [reflexivity|].
  destruct (todecimal U c) as [d|] eqn:E; cbn; rewrite ?E; cbn.
  - now rewrite IH.
  - exact IH.
Qed.

Lemma strip_all_digits (piva : str) :
  Forall (fun c => exists d, todecimal U c = Some d) (strip_non_digits U piva).
Proof.
  unfold strip_non_digits, isdecimal.
  induction piva as [|c piva IH]; simpl; [constructor|].
  destruct (todecimal U c) as [d|] eqn:E; [|exact IH].
  constructor; [now exists d | exact IH].
Qed.

Lemma digit_values_length (piva : str) :
  length (digit_values U piva) = length (strip_non_digits U piva).
Proof.
  unfold digit_values, strip_non_digits, isdecimal.
  induction piva as [|c piva IH]; simpl; [reflexivity|].
  destruct (todecimal U c); cbn; [f_equal|]; exact IH.
Qed.

Lemma doubled_reduced_eq (d : Z) :
  (if d * 2 <? 10 then d * 2 else d * 2 - 9) = doubled_reduced d.
Proof.
  unfold doubled_reduced.
  destruct (Z.ltb_spec (d * 2) 10), (Z.leb_spec 10 (2 * d)); lia.
Qed.

Lemma digit_values_cons (c : char) (d : nat) (ds : str) :
  todecimal U c = Some d ->
  digit_values U (c :: ds) = Z.of_nat d :: digit_values U ds.
Proof. intros E. unfold digit_values. cbn. now rewrite E. Qed.

Lemma digit_values_nil : digit_values U [] = [].
Proof. reflexivity. Qed.

(** On eleven digits the [try] block raises nothing and compares the last
    digit with the expected check digit. *)
Lemma checksum_body_spec (ds : str) :
  length ds = 11%nat ->
  Forall (fun c => exists d, todecimal U c = Some d) ds ->
  checksum_body U ds =
    Ok (digit_at (digit_values U ds) 10 =? expected_check_digit (digit_values U ds)).
Proof.
  intros Hlen Hall.
  do 12 (destruct ds as [|? ds]; try discriminate Hlen). clear Hlen.
  repeat match goal with
         | H : Forall _ (_ :: _) |- _ =>
             apply Forall_cons in H; destruct H as [[? ?] H]
         end.
  repeat (erewrite digit_values_cons by eassumption).
  rewrite digit_values_nil.
  unfold checksum_body, expected_check_digit, S_odd, S_even, digit_at.
  cbn [nth].
  repeat (cbn [lookup list_lookup sum_gen even_loop mbind result_bind bind];
          unfold even_step, getitem, int_of_char;
          cbn [lookup list_lookup mbind result_bind bind];
          progress repeat match goal with
                          | H : todecimal U _ = Some _ |- _ => rewrite !H
                          end).
  cbn [mbind result_bind bind].
  rewrite !doubled_reduced_eq.
  match goal with
  | |- Ok (_ =? (10 - ?a `mod` 10) `mod` 10) = Ok (_ =? (10 - ?b `mod` 10) `mod` 10) =>
      replace a with b by lia
  end.
  reflexivity.
Qed.

Lemma validate_partita_iva_eq (piva : str) :
  validate_partita_iva U piva =
    Ok ((length (digit_values U piva) =? 11)%nat
        && (digit_at (digit_values U piva) 10
            =? expected_check_digit (digit_values U piva))).
Proof.
  unfold validate_partita_iva.
  rewrite digit_values_length.
  destruct (Nat.eqb_spec (length (strip_non_digits U piva)) 11) as [Hlen|Hlen];
    simpl; [|reflexivity].
  rewrite (checksum_body_spec _ Hlen (strip_all_digits piva)).
  now rewrite digit_values_strip.
Qed.


(** Whatever the input, a boolean is returned; an input that does not hold
    exactly eleven digits gives [False]. *)
Lemma validate_partita_iva_total (piva : str) :
  exists b : bool, validate_partita_iva U piva = Ok b.
Proof. eexists. apply validate_partita_iva_eq. Qed.

Lemma validate_partita_iva_wrong_length (piva : str) :
  length (digit_values U piva) <> 11%nat ->
  validate_partita_iva U piva = Ok false.
Proof.
  intros H. rewrite validate_partita_iva_eq.
  destruct (Nat.eqb_spec (length (digit_values U piva)) 11); [contradiction|].
  reflexivity.
Qed.

End Validate.

(** A number with the right check digit, written with its country prefix;
    the same number with another last digit; a text without digits. *)
Example validate_partita_iva_valid :
  validate_partita_iva ascii_db (lit "IT 12345678903") = Ok true.
Proof. vm_compute. reflexivity. Qed.

Example validate_partita_iva_wrong_digit :
  validate_partita_iva ascii_db (lit "12345678901") = Ok false.
Proof. vm_compute. reflexivity. Qed.

Example validate_partita_iva_no_digit :
  validate_partita_iva ascii_db (lit "Acme Spa") = Ok false.
Proof. vm_compute. reflexivity. Qed.

End DataValidatorProps.

(** ** RateLimiter *)

Module RateLimiterProps.
Import RateLimiter.

Lemma lookup_init (now : Z) (a : str) :
  rate_limits (init now) !! a = entry_for [] a.
Proof.
  unfold entry_for, configured_limit, init; cbn [rate_limits].
  repeat case_bool_decide; subst; simplify_map_eq; reflexivity.
Qed.

Lemma agrees_init (now : Z) : agrees (init now) (View now []).
Proof. split; [reflexivity|]. split; [reflexivity|]. apply lookup_init. Qed.

Lemma count_calls_snoc (a b : str) (l : list str) :
  count_calls a (l ++ [b]) =
    count_calls a l + (if bool_decide (b = a) then 1 else 0).
Proof.
  unfold count_calls. rewrite List.filter_app, length_app. cbn.
  case_bool_decide; cbn; lia.
Qed.

Lemma agrees_reset (s : t) (v : window_view) (now : Z) :
  agrees s v ->
  agrees (_reset_counters_if_needed s now) (observe_clock v now).
Proof.
  intros (Hc & Hl & Hr).
  unfold _reset_counters_if_needed, observe_clock. rewrite Hl.
  destruct (reset_due (window_start v) now); [|by repeat split].
  split; [exact Hc|]. split; [reflexivity|].
  intros a. cbn [rate_limits recorded]. rewrite lookup_fmap, Hr.
  unfold entry_for. destruct (configured_limit a); reflexivity.
Qed.

Lemma can_make_call_state (s : t) (a : str) (now : Z) :
  snd (can_make_call s a now) = _reset_counters_if_needed s now.
Proof.
  unfold can_make_call.
  destruct (rate_limits (_reset_counters_if_needed s now) !! a); reflexivity.
Qed.

Lemma get_wait_time_state (s : t) (a : str) (now1 now2 : Z) :
  snd (get_wait_time s a now1 now2) = _reset_counters_if_needed s now1.
Proof.
  unfold get_wait_time.
  pose proof (can_make_call_state s a now1) as H.
  destruct (can_make_call s a now1) as [ok s']. cbn [snd] in H. subst s'.
  destruct ok; [reflexivity|].
  destruct (rate_limits (_reset_counters_if_needed s now1) !! a); reflexivity.
Qed.

Lemma agrees_record (s : t) (v : window_view) (a : str) :
  agrees s v ->
  agrees (record_call s a) (View (window_start v) (recorded v ++ [a])).
Proof.
  intros (Hc & Hl & Hr). unfold record_call.
  pose proof (Hr a) as Ha. unfold entry_for in Ha.
  destruct (configured_limit a) as [L|] eqn:HL; cbn in Ha; rewrite Ha.
  - split; [exact Hc|]. split; [exact Hl|].
    intros b. cbn [rate_limits recorded]. unfold entry_for.
    rewrite count_calls_snoc.
    destruct (decide (a = b)) as [->|Hne].
    + rewrite lookup_insert_eq, HL. cbn.
      rewrite bool_decide_eq_true_2 by reflexivity. reflexivity.
    + rewrite lookup_insert_ne by exact Hne. rewrite Hr. unfold entry_for.
      rewrite bool_decide_eq_false_2 by exact Hne.
      now rewrite Z.add_0_r.
  - split; [exact Hc|]. split; [exact Hl|].
    intros b. cbn [recorded]. rewrite Hr. unfold entry_for.
    rewrite count_calls_snoc.
    destruct (decide (a = b)) as [->|Hne].
    + now rewrite HL.
    + rewrite bool_decide_eq_false_2 by exact Hne. now rewrite Z.add_0_r.
Qed.

Lemma agrees_step (s : t) (v : window_view) (o : op) :
  agrees s v -> agrees (step s o) (observe v o).
Proof.
  intros H. destruct o as [a now|a|a now1 now2]; cbn [step observe].
  - rewrite can_make_call_state. now apply agrees_reset.
  - now apply agrees_record.
  - rewrite get_wait_time_state. now apply agrees_reset.
Qed.

Lemma agrees_fold (ops : list op) (s : t) (v : window_view) :
  agrees s v -> agrees (fold_left step ops s) (fold_left observe ops v).
Proof.
  revert s v. induction ops as [|o ops IH]; intros s v H; [exact H|].
  cbn. apply IH. now apply agrees_step.
Qed.

Lemma agrees_run (t0 : Z) (ops : list op) :
  agrees (run (init t0) ops) (history t0 ops).
Proof. apply agrees_fold, agrees_init. Qed.

Lemma history_snoc (t0 : Z) (ops : list op) (o : op) :
  history t0 (ops ++ [o]) = observe (history t0 ops) o.
Proof. unfold history. now rewrite fold_left_app. Qed.

(** C3.  On a limiter created at [t0] and used through any sequence of calls,
    [can_make_call] for a configured API (limit 10 for semrush, 100 for
    serper, 50 for openai) answers [True] exactly when the calls recorded for
    it since the start of the current window are fewer than its limit.  When
    60 seconds or more have passed since the last reset, the check first sets
    every counter to 0 and the reset time to [now]; otherwise it leaves the
    limiter as it is.  The window is fixed: it starts at the reset. *)
Theorem can_make_call_fixed_window
    (t0 : Z) (ops : list op) (api_name : str) (L : Z) (now : Z) :
  (api_name, L) ∈ [(lit "semrush", 10); (lit "serper", 100); (lit "openai", 50)] ->
  let s := run (init t0) ops in
  let b := fst (can_make_call s api_name now) in
  let s' := snd (can_make_call s api_name now) in
  let v' := history t0 (ops ++ [CanMakeCall api_name now]) in
  (b = true <-> count_calls api_name (recorded v') < L) /\
  (60 * second <= now - last_reset s ->
     last_reset s' = now /\
     window_start v' = now /\
     forall a e, rate_limits s' !! a = Some e -> calls e = 0) /\
  (now - last_reset s < 60 * second -> s' = s /\ window_start v' = last_reset s).
Proof.
  intros Hin s b s' v'.
  assert (HL : configured_limit api_name = Some L).
  { rewrite !elem_of_cons in Hin.
    destruct Hin as [H|[H|[H|H]]]; try (by inversion H).
    all: injection H as -> ->; reflexivity. }
  pose proof (agrees_run t0 ops) as Hs. fold s in Hs.
  pose proof (agrees_step _ _ (CanMakeCall api_name now) Hs) as Hs'.
  cbn [step] in Hs'. fold s' in Hs'.
  rewrite <- history_snoc in Hs'. fold v' in Hs'.
  destruct Hs' as (_ & Hl' & Hr').
  split; [|split].
  - subst b. unfold can_make_call.
    pose proof (can_make_call_state s api_name now) as E. fold s' in E.
    rewrite <- E, (Hr' api_name). unfold entry_for. rewrite HL. cbn.
    apply Z.ltb_lt.
  - intros Hdue.
    assert (D : reset_due (last_reset s) now = true)
      by (unfold reset_due; now apply Z.leb_le).
    subst s'. rewrite can_make_call_state in *.
    unfold _reset_counters_if_needed in *. rewrite D in *.
    cbn [last_reset rate_limits] in *.
    split; [reflexivity|]. split; [now rewrite <- Hl'|].
    intros a e. rewrite lookup_fmap.
    destruct (rate_limits s !! a); cbn; [|discriminate].
    now intros [= <-].
  - intros Hnot.
    assert (D : reset_due (last_reset s) now = false)
      by (unfold reset_due; apply Z.leb_gt; lia).
    subst s'. rewrite can_make_call_state in *.
    unfold _reset_counters_if_needed in *. rewrite D in *.
    split; [reflexivity|]. now rewrite <- Hl'.
Qed.

Lemma can_make_call_fixed_window_witness :
  ((lit "semrush", 10) ∈ [(lit "semrush", 10); (lit "serper", 100); (lit "openai", 50)]) /\
  (fst (can_make_call (run (init 0) [RecordCall (lit "semrush")]) (lit "semrush") 5) = true <->
   count_calls (lit "semrush")
     (recorded (history 0 [RecordCall (lit "semrush");
                           CanMakeCall (lit "semrush") 5])) < 10).
Proof.
  split; [apply list_elem_of_here|].
  apply (can_make_call_fixed_window 0 [RecordCall (lit "semrush")]
           (lit "semrush") 10 5).
  apply list_elem_of_here.
Defined.

(** The window does not slide: ten calls recorded in the last second of a
    window do not count once the next window has begun. *)
Example window_is_fixed :
  let late := replicate 10 (RecordCall (lit "semrush")) in
  let s := run (init 0) (CanMakeCall (lit "semrush") (59 * second) :: late) in
  fst (can_make_call s (lit "semrush") (59 * second + 1)) = false /\
  fst (can_make_call s (lit "semrush") (60 * second)) = true.
Proof. vm_compute. split; reflexivity. Qed.

(** Names other than the three configured ones have no entry. *)
Lemma configured_limit_other (a : str) :
  a ∉ [lit "semrush"; lit "serper"; lit "openai"] ->
  configured_limit a = None.
Proof.
  intros H. unfold configured_limit.
  repeat case_bool_decide; subst; try reflexivity;
    exfalso; apply H; set_solver.
Qed.

Lemma configured_limit_known (a : str) :
  a ∈ [lit "semrush"; lit "serper"; lit "openai"] ->
  is_Some (configured_limit a).
Proof.
  rewrite !elem_of_cons.
  intros [->|[->|[->|H]]]; [eexists; reflexivity..|by inversion H].
Qed.

(** [record_call] on any limiter: fields other than [rate_limits] and
    entries other than the one of [api_name] keep their value, and that
    entry keeps its limit and window. *)
Lemma record_call_frame (s : t) (api_name : str) :
  api_calls (record_call s api_name) = api_calls s /\
  last_reset (record_call s api_name) = last_reset s /\
  (forall a, a <> api_name ->
     rate_limits (record_call s api_name) !! a = rate_limits s !! a) /\
  (forall e, rate_limits s !! api_name = Some e ->
     rate_limits (record_call s api_name) !! api_name =
       Some (ApiLimit (calls e + 1) (limit e) (window e))).
Proof.
  unfold record_call.
  destruct (rate_limits s !! api_name) as [e|] eqn:E; cbn.
  - repeat split; [|intros ? [= <-]; apply lookup_insert_eq].
    intros a Hne. now apply lookup_insert_ne.
  - repeat split. intros e; discriminate.
Qed.

(** C9.  On a limiter created by [__init__] and used through any sequence of
    calls, an API name other than semrush, serper and openai is always
    allowed, recording a call for it changes nothing, and its waiting time
    is 0; recording a call for a configured API adds one to that API's
    counter and changes nothing else in the limiter. *)
Theorem unconfigured_api_frame
    (t0 : Z) (ops : list op) (api_name : str) (now now2 : Z) :
  api_name ∉ [lit "semrush"; lit "serper"; lit "openai"] ->
  let s := run (init t0) ops in
  fst (can_make_call s api_name now) = true /\
  record_call s api_name = s /\
  fst (get_wait_time s api_name now now2) = 0 /\
  forall a, a ∈ [lit "semrush"; lit "serper"; lit "openai"] ->
    api_calls (record_call s a) = api_calls s /\
    last_reset (record_call s a) = last_reset s /\
    (forall a', a' <> a ->
       rate_limits (record_call s a) !! a' = rate_limits s !! a') /\
    exists e, rate_limits s !! a = Some e /\
      rate_limits (record_call s a) !! a =
        Some (ApiLimit (calls e + 1) (limit e) (window e)).
Proof.
  intros Hout s.
  pose proof (configured_limit_other _ Hout) as Hnone.
  pose proof (agrees_run t0 ops) as Hs. fold s in Hs.
  pose proof (agrees_step _ _ (CanMakeCall api_name now) Hs) as Hs'.
  cbn [step] in Hs'. rewrite can_make_call_state in Hs'.
  destruct Hs' as (_ & _ & Hr').
  specialize (Hr' api_name). unfold entry_for in Hr'.
  rewrite Hnone in Hr'. cbn in Hr'.
  assert (Hcan : can_make_call s api_name now
                 = (true, _reset_counters_if_needed s now)).
  { unfold can_make_call. now rewrite Hr'. }
  split; [now rewrite Hcan|]. split; [|split].
  - destruct Hs as (_ & _ & Hr). specialize (Hr api_name).
    unfold entry_for in Hr. rewrite Hnone in Hr. cbn in Hr.
    unfold record_call. now rewrite Hr.
  - unfold get_wait_time. now rewrite Hcan.
  - intros a Ha.
    destruct (record_call_frame s a) as (H1 & H2 & H3 & H4).
    split; [exact H1|]. split; [exact H2|]. split; [exact H3|].
    destruct Hs as (_ & _ & Hr). specialize (Hr a). unfold entry_for in Hr.
    destruct (configured_limit_known a Ha) as [L HL]. rewrite HL in Hr.
    cbn in Hr. eexists. split; [exact Hr|]. now apply H4.
Qed.

Lemma unconfigured_api_frame_witness :
  (lit "github" ∉ [lit "semrush"; lit "serper"; lit "openai"]) /\
  record_call (run (init 0) [RecordCall (lit "semrush")]) (lit "github")
    = run (init 0) [RecordCall (lit "semrush")].
Proof.
  assert (H : lit "github" ∉ [lit "semrush"; lit "serper"; lit "openai"]).
  { rewrite !not_elem_of_cons. repeat split; try discriminate.
    apply not_elem_of_nil. }
  split; [exact H|].
  apply (unconfigured_api_frame 0 [RecordCall (lit "semrush")]
           (lit "github") 0 0 H).
Defined.

End RateLimiterProps.

(** ** CacheManager: lazy expiry *)

Module CacheManagerProps.
Import CacheManager.

Section Cache.
Context {V : Type}.
Implicit Types (self : t V) (k : str) (v : V).

Lemma get_absent self k now :
  cache self !! k = None -> get self k now = (Ok None, self).
Proof.
  intros H. unfold get.
  rewrite bool_decide_eq_false_2; [reflexivity|].
  rewrite H. apply is_Some_None.
Qed.

Lemma get_fresh self k v ts now :
  cache self !! k = Some (v, ts) ->
  now - ts < cache_duration self ->
  get self k now = (Ok (Some v), self).
Proof.
  intros H Hage. unfold get, subscript. rewrite H.
  rewrite bool_decide_eq_true_2 by (eexists; reflexivity).
  destruct (Z.ltb_spec (now - ts) (cache_duration self)); [reflexivity|lia].
Qed.

Lemma get_expired self k v ts now :
  cache self !! k = Some (v, ts) ->
  cache_duration self <= now - ts ->
  get self k now =
    (Ok None, Make V (delete k (cache self)) (cache_duration self)).
Proof.
  intros H Hage. unfold get, subscript, del. rewrite H.
  rewrite bool_decide_eq_true_2 by (eexists; reflexivity).
  destruct (Z.ltb_spec (now - ts) (cache_duration self)); [lia|reflexivity].
Qed.

(** [get] never raises: it answers a value or [None]. *)
Lemma get_total self k now :
  exists r : option V, fst (get self k now) = Ok r.
Proof.
  destruct (cache self !! k) as [[v ts]|] eqn:E.
  - destruct (Z.lt_ge_cases (now - ts) (cache_duration self)).
    + erewrite get_fresh by eassumption. eexists; reflexivity.
    + erewrite get_expired by eassumption. eexists; reflexivity.
  - rewrite get_absent by assumption. eexists; reflexivity.
Qed.

(** What [set] stores is what [get] finds while it is fresh. *)
Lemma get_after_set self k v t1 t2 :
  t2 - t1 < cache_duration self ->
  fst (get (set self k v t1) k t2) = Ok (Some v).
Proof.
  intros H. erewrite get_fresh; [reflexivity| |exact H].
  apply lookup_insert_eq.
Qed.

(** C4.  [get] expires entries lazily.  An entry younger than the cache
    duration is returned and the cache is left as it is; an entry whose age
    has reached the duration is deleted and [None] is returned; without an
    entry [None] is returned; no case raises.  The default duration is 24
    hours. *)
Theorem get_lazy_expiry self k now :
  (forall v ts, cache self !! k = Some (v, ts) ->
     now - ts < cache_duration self ->
     get self k now = (Ok (Some v), self)) /\
  (forall v ts, cache self !! k = Some (v, ts) ->
     cache_duration self <= now - ts ->
     fst (get self k now) = Ok None /\
     cache (snd (get self k now)) = delete k (cache self) /\
     cache (snd (get self k now)) !! k = None /\
     cache_duration (snd (get self k now)) = cache_duration self) /\
  (cache self !! k = None -> get self k now = (Ok None, self)) /\
  (exists r : option V, fst (get self k now) = Ok r) /\
  cache_duration (init V 24) = 24 * 3600 * 1000000.
Proof.
  split; [intros; eapply get_fresh; eassumption|].
  split; [|split; [apply get_absent|split; [apply get_total|reflexivity]]].
  intros v ts H Hage. erewrite get_expired by eassumption. cbn.
  repeat split. apply lookup_delete_eq.
Qed.

End Cache.

(** A day-long cache with one entry stored at time 0: found an hour later,
    deleted a day later, and another key is absent. *)
Example get_fresh_example :
  get (set (init nat 24) (lit "k") 7%nat 0) (lit "k") hour
  = (Ok (Some 7%nat), set (init nat 24) (lit "k") 7%nat 0).
Proof. apply (get_fresh _ _ 7%nat 0); [apply lookup_insert_eq|reflexivity]. Qed.

Example get_expired_example :
  get (set (init nat 24) (lit "k") 7%nat 0) (lit "k") (24 * hour)
  = (Ok None, init nat 24).
Proof.
  rewrite (get_expired _ _ 7%nat 0); [|apply lookup_insert_eq|cbn; lia].
  unfold init, set. cbn. now rewrite delete_insert_id.
Qed.

Example get_absent_example :
  fst (get (set (init nat 24) (lit "k") 7%nat 0) (lit "j") 1) = Ok None.
Proof. rewrite get_absent; [reflexivity|]. now apply lookup_insert_None. Qed.

End CacheManagerProps.

(** ** hashlib.md5 *)

Module MD5Props.

(** The test suite of RFC 1321. *)
Example md5_empty : MD5.hexdigest [] = lit "d41d8cd98f00b204e9800998ecf8427e".
Proof. vm_compute. reflexivity. Qed.

Example md5_abc :
  MD5.hexdigest (lit "abc") = lit "900150983cd24fb0d6963f7d28e17f72".
Proof. vm_compute. reflexivity. Qed.

Example md5_digits :
  MD5.hexdigest
    (lit "12345678901234567890123456789012345678901234567890123456789012345678901234567890")
  = lit "57edf4a22be3c955ac49da2e2107b67a".
Proof. vm_compute. reflexivity. Qed.

End MD5Props.

(** ** CacheManager: the cache key *)

Module CacheKeyProps.
Import CacheKey.

Lemma str_compare_eq (a b : str) : str_compare a b = Eq <-> a = b.
Proof. apply list_compare_refl, N.compare_eq_iff. Qed.


Lemma N_compare_trans (x y z : N) (c : comparison) :
  N.compare x y = c -> N.compare y z = c -> N.compare x z = c.
Proof.
  destruct c; intros H1 H2.
  - apply N.compare_eq_iff in H1, H2. subst. apply N.compare_refl.
  - rewrite N.compare_lt_iff in *. lia.
  - rewrite N.compare_gt_iff in *. lia.
Qed.

Lemma str_compare_trans (a b c : str) (r : comparison) :
  str_compare a b = r -> str_compare b c = r -> str_compare a c = r.
Proof.
  apply list_compare_trans;
    [apply N.compare_eq_iff|apply N_compare_trans|apply N.compare_antisym].
Qed.



Lemma str_le_trans (a b c : str) :
  str_le a b = true -> str_le b c = true -> str_le a c = true.
Proof.
  unfold str_le.
  destruct (str_compare a b) eqn:E1; try discriminate;
    destruct (str_compare b c) eqn:E2; try discriminate; intros _ _.
  - apply str_compare_eq in E1, E2. subst.
    now rewrite (proj2 (str_compare_eq c c) eq_refl).
  - apply str_compare_eq in E1. subst. now rewrite E2.
  - apply str_compare_eq in E2. subst. now rewrite E1.
  - now rewrite (str_compare_trans a b c Lt E1 E2).
Qed.

Section Items.
Context {A : Type}.
Implicit Types (x y : str * A) (l : list (str * A)).

#[local] Instance key_le_trans : Transitive (@key_le A).
Proof. intros x y z. apply str_le_trans. Qed.







End Items.




(** *** The key is always computed when the name can be encoded *)
















(** The key of a call of [fetch_semrush_data], as CPython computes it. *)
Example get_cache_key_semrush :
  get_cache_key (lit "semrush")
    [(lit "domain", JStr (lit "example.com")); (lit "display_limit", JInt 50)]
  = Ok (lit "2c5729507602ae94a4834b8d8b94bb8e").
Proof. vm_compute. reflexivity. Qed.

End CacheKeyProps.

(** ** The matcher against the meaning of the patterns *)

Module ReProps.
Import Re.

Section Matcher.
Variable U : unicode.
Implicit Types (s : str) (r : regex) (p : char -> bool).

Lemma run_length_le p s pos cap : (run_length p s pos cap <= cap)%nat.
Proof.
  revert pos. induction cap as [|cap IH]; intros pos; cbn; [lia|].
  destruct (s !! pos) as [c|]; [|lia].
  destruct (p c); [|lia]. specialize (IH (S pos)). lia.
Qed.

Lemma run_length_in p s pos cap j :
  (j < run_length p s pos cap)%nat -> in_class s p (pos + j).
Proof.
  revert pos j. induction cap as [|cap IH]; intros pos j; cbn; [lia|].
  destruct (s !! pos) as [c|] eqn:E; [|lia].
  destruct (p c) eqn:Ep; [|lia].
  destruct j as [|j]; intros H.
  - rewrite Nat.add_0_r. now exists c.
  - replace (pos + S j)%nat with (S pos + j)%nat by lia. apply IH. lia.
Qed.

Lemma run_length_max p s pos cap n :
  (n <= cap)%nat ->
  (forall j, (j < n)%nat -> in_class s p (pos + j)) ->
  (n <= run_length p s pos cap)%nat.
Proof.
  revert pos n. induction cap as [|cap IH]; intros pos n Hn Hall; cbn; [lia|].
  destruct n as [|n]; [lia|].
  destruct (Hall O ltac:(lia)) as (c & Hc & Hp).
  rewrite Nat.add_0_r in Hc. rewrite Hc, Hp.
  apply le_n_S, IH; [lia|].
  intros j Hj. replace (S pos + j)%nat with (pos + S j)%nat by lia.
  apply Hall. lia.
Qed.

Lemma in_class_lt s p i : in_class s p i -> (i < length s)%nat.
Proof. intros (c & Hc & _). now apply lookup_lt_Some in Hc. Qed.

Lemma try_down_sound (k : nat -> option nat) lo n e :
  try_down k lo n = Some e ->
  exists m, (lo <= m <= n)%nat /\ k m = Some e.
Proof.
  induction n as [|n IH]; cbn [try_down].
  - destruct (Nat.ltb_spec 0 lo); [discriminate|].
    destruct (k O) eqn:E; [|discriminate].
    intros [= ->]. exists O. split; [lia|exact E].
  - destruct (Nat.ltb_spec (S n) lo); [discriminate|].
    destruct (k (S n)) eqn:E.
    + intros [= ->]. exists (S n). split; [lia|exact E].
    + intros H'. destruct (IH H') as (m & Hm & Hk).
      exists m. split; [lia|exact Hk].
Qed.

Lemma try_down_complete (k : nat -> option nat) lo n m :
  (lo <= m <= n)%nat -> is_Some (k m) -> is_Some (try_down k lo n).
Proof.
  intros Hm Hk. induction n as [|n IH]; cbn [try_down].
  - assert (m = O) by lia. subst m.
    destruct (Nat.ltb_spec 0 lo); [lia|].
    destruct Hk as [e ->]. now eexists.
  - destruct (Nat.ltb_spec (S n) lo); [lia|].
    destruct (k (S n)) eqn:E; [now eexists|].
    apply IH. destruct (decide (m = S n)) as [->|]; [|lia].
    rewrite E in Hk. now destruct Hk.
Qed.

(** What the matcher finds is a match. *)
Lemma match_here_sound r s pos e :
  match_here U r s pos = Some e -> matches U s r pos e.
Proof.
  revert pos e. induction r as [|a r IH]; intros pos e; cbn.
  - intros [= ->]. constructor.
  - destruct a as [p lo hi| | |].
    + intros H. apply try_down_sound in H as (m & Hm & Hk).
      apply (matches_class U s p lo hi r pos m e); [lia| | |now apply IH].
      * intros h ->. cbn in Hm. pose proof (run_length_le p s pos h). lia.
      * intros j Hj. eapply run_length_in.
        eapply Nat.lt_le_trans; [exact Hj|apply Hm].
    + destruct (boundary U s pos) eqn:E; [|discriminate].
      intros H. constructor; [exact E|now apply IH].
    + destruct (Nat.eqb_spec pos 0) as [->|]; [|discriminate].
      intros H. constructor. now apply IH.
    + destruct (at_end s pos) eqn:E; [|discriminate].
      intros H. constructor; [exact E|now apply IH].
Qed.

(** Where there is a match the matcher finds one. *)
Lemma match_here_complete r s pos e :
  matches U s r pos e -> is_Some (match_here U r s pos).
Proof.
  induction 1 as [pos|p lo hi r pos n e Hlo Hhi Hall _ IH
                 |r pos e Hb _ IH|r e _ IH|r pos e He _ IH]; cbn.
  - now eexists.
  - apply (try_down_complete _ lo _ n); [|exact IH].
    split; [exact Hlo|]. apply run_length_max; [|exact Hall].
    destruct hi as [h|]; [now apply Hhi|].
    destruct n as [|n]; [lia|].
    pose proof (in_class_lt _ _ _ (Hall n ltac:(lia))). lia.
  - now rewrite Hb.
  - exact IH.
  - now rewrite He.
Qed.

Lemma match_here_iff r s pos :
  is_Some (match_here U r s pos) <-> exists e, matches U s r pos e.
Proof.
  split.
  - intros [e H]. exists e. now apply match_here_sound.
  - intros [e H]. now apply match_here_complete in H.
Qed.

Lemma search_from_sound r s pos fuel st e :
  search_from U r s pos fuel = Some (st, e) ->
  (pos <= st <= pos + fuel)%nat /\ match_here U r s st = Some e /\
  forall i, (pos <= i < st)%nat -> match_here U r s i = None.
Proof.
  revert pos. induction fuel as [|fuel IH]; intros pos; cbn.
  - destruct (match_here U r s pos) eqn:E; [|discriminate].
    intros [= <- <-]. split; [lia|]. split; [exact E|]. intros; lia.
  - destruct (match_here U r s pos) eqn:E.
    + intros [= <- <-]. split; [lia|]. split; [exact E|]. intros; lia.
    + intros H. apply IH in H as (H1 & H2 & H3).
      split; [lia|]. split; [exact H2|].
      intros i Hi. destruct (decide (i = pos)) as [->|]; [exact E|].
      apply H3. lia.
Qed.



Lemma match_iff r s :
  is_Some (match_ U r s) <-> exists e, matches U s r 0 e.
Proof.
  unfold match_. rewrite <- match_here_iff.
  destruct (match_here U r s 0); cbn; split; intros [? H]; try discriminate;
    now eexists.
Qed.

End Matcher.

End ReProps.

(** ** InputProcessor *)

Module InputProcessorProps.
Import Re ReProps InputProcessor.

Section Identify.
Variable U : unicode.
Variable urlparse_netloc : str -> result str.

Local Abbreviation identify := (identify_input_type U urlparse_netloc).



(** The tests spelled out.  A tax number is eleven digits between two word
    boundaries. *)
Lemma has_piva_iff (u : str) :
  has_piva U u <->
  exists i, boundary U u i = true /\
    (forall j, (j < 11)%nat -> in_class u (isdecimal U) (i + j)) /\
    boundary U u (i + 11) = true.
Proof.
  unfold has_piva, piva_pattern. split.
  - intros (i & e & _ & H).
    inversion H as [| | ? ? ? Hb H1 | |]; subst; clear H.
    inversion H1 as [|? ? ? ? ? n ? Hlo Hhi Hall H2 | | |]; subst; clear H1.
    assert (n = 11%nat) by (specialize (Hhi _ eq_refl); lia). subst n.
    inversion H2 as [| | ? ? ? Hb' H3 | |]; subst; clear H2.
    exists i. auto.
  - intros (i & Hb & Hall & Hb').
    exists i, (i + 11)%nat. split.
    + pose proof (in_class_lt _ _ _ (Hall 0%nat ltac:(lia))). lia.
    + constructor; [exact Hb|].
      apply (matches_class U u _ _ _ _ i 11); [lia| |exact Hall|].
      * intros h [= <-]. lia.
      * constructor; [exact Hb'|constructor].
Qed.

(** A domain is a letter or digit, one to sixty-one letters, digits or
    hyphens, a letter or digit, a dot and two letters or more, up to the end
    of the text. *)
Lemma is_domain_iff (u : str) :
  is_domain U u <->
  exists n m, (1 <= n <= 61)%nat /\ (2 <= m)%nat /\
    in_class u alnum 0 /\
    (forall j, (j < n)%nat -> in_class u alnum_hyphen (1 + j)) /\
    in_class u alnum (1 + n) /\
    in_class u dot (2 + n) /\
    (forall j, (j < m)%nat -> in_class u alpha (3 + n + j)) /\
    at_end u (3 + n + m) = true.
Proof.
  unfold is_domain, domain_pattern, domain_body, once. cbn [app]. split.
  - intros (e & H).
    inversion H as [| | |? ? H0|]; subst; clear H.
    inversion H0 as [|? ? ? ? ? n0 ? L0 B0 A0 H1| | |]; subst; clear H0.
    inversion H1 as [|? ? ? ? ? n ? L1 B1 A1 H2| | |]; subst; clear H1.
    inversion H2 as [|? ? ? ? ? n2 ? L2 B2 A2 H3| | |]; subst; clear H2.
    inversion H3 as [|? ? ? ? ? n3 ? L3 B3 A3 H4| | |]; subst; clear H3.
    inversion H4 as [|? ? ? ? ? m ? L4 B4 A4 H5| | |]; subst; clear H4.
    inversion H5 as [| | | |? ? ? He H6]; subst; clear H5.
    specialize (B0 _ eq_refl). specialize (B1 _ eq_refl).
    specialize (B2 _ eq_refl). specialize (B3 _ eq_refl).
    assert (n0 = 1%nat) by lia. assert (n2 = 1%nat) by lia.
    assert (n3 = 1%nat) by lia. subst n0 n2 n3.
    exists n, m. split; [lia|]. split; [lia|].
    split; [apply (A0 0%nat); lia|].
    split; [intros j Hj; apply (A1 j Hj)|].
    split; [replace (1 + n)%nat with (0 + 1 + n + 0)%nat by lia; apply A2; lia|].
    split; [replace (2 + n)%nat with (0 + 1 + n + 1 + 0)%nat by lia;
            apply A3; lia|].
    split.
    + intros j Hj.
      replace (3 + n + j)%nat with (0 + 1 + n + 1 + 1 + j)%nat by lia.
      now apply A4.
    + replace (3 + n + m)%nat with (0 + 1 + n + 1 + 1 + m)%nat by lia.
      exact He.
  - intros (n & m & Hn & Hm & A0 & A1 & A2 & A3 & A4 & He).
    exists (3 + n + m)%nat. constructor.
    apply (matches_class U u _ _ _ _ 0 1); [lia|intros h [= <-]; lia| |].
    { intros j Hj. now replace j with 0%nat by lia. }
    apply (matches_class U u _ _ _ _ _ n); [lia|intros h [= <-]; lia|exact A1|].
    apply (matches_class U u _ _ _ _ _ 1); [lia|intros h [= <-]; lia| |].
    { intros j Hj. replace j with 0%nat by lia.
      now replace (0 + 1 + n + 0)%nat with (1 + n)%nat by lia. }
    apply (matches_class U u _ _ _ _ _ 1); [lia|intros h [= <-]; lia| |].
    { intros j Hj. replace j with 0%nat by lia.
      now replace (0 + 1 + n + 1 + 0)%nat with (2 + n)%nat by lia. }
    apply (matches_class U u _ _ _ _ _ m); [lia|discriminate| |].
    { intros j Hj.
      replace (0 + 1 + n + 1 + 1 + j)%nat with (3 + n + j)%nat by lia.
      now apply A4. }
    replace (0 + 1 + n + 1 + 1 + m)%nat with (3 + n + m)%nat by lia.
    constructor; [exact He|constructor].
Qed.







(** C5, as the code has it.  Either a dict is returned whose type is one of
    url, partita_iva, domain, company_with_domain and company_name, or the
    input is a URL that [urlparse] rejects and its exception is raised. *)
Theorem identify_input_type_five_types (s : str) :
  (exists r, identify s = Ok r /\
     input_type r ∈ [lit "url"; lit "partita_iva"; lit "domain";
                     lit "company_with_domain"; lit "company_name"]) \/
  (is_url (strip s) /\
   exists e, urlparse_netloc (strip s) = Raise e /\ identify s = Raise e).
Proof.
  unfold is_url, identify_input_type.
  destruct (startswith (strip s) (lit "http://")
            || startswith (strip s) (lit "https://")) eqn:Hu.
  - destruct (urlparse_netloc (strip s)) as [d|e] eqn:E.
    + left. eexists. split; [reflexivity|]. cbn [input_type]. set_solver.
    + right. split; [reflexivity|]. exists e. split; reflexivity.
  - left.
    destruct (search U (piva_pattern U) (strip s));
      [eexists; split; [reflexivity|cbn [input_type]; set_solver]|].
    destruct (match_ U domain_pattern (strip s));
      [eexists; split; [reflexivity|cbn [input_type]; set_solver]|].
    destruct (search U domain_in_text_pattern (strip s));
      eexists; (split; [reflexivity|cbn [input_type]; set_solver]).
Qed.

End Identify.

(** One input for each outcome. *)
Example identify_url_example :
  classified (identify_input_type ascii_db netloc_core
                (lit "  https://www.example.com/about "))
    (lit "url") 1.
Proof. eexists. split; [vm_compute; reflexivity|]. split; reflexivity. Qed.

Example identify_piva_example :
  classified (identify_input_type ascii_db netloc_core
                (lit "Acme Spa 12345678903"))
    (lit "partita_iva") (9 # 10).
Proof. eexists. split; [vm_compute; reflexivity|]. split; reflexivity. Qed.

Example identify_domain_example :
  classified (identify_input_type ascii_db netloc_core (lit "example.com"))
    (lit "domain") (8 # 10).
Proof. eexists. split; [vm_compute; reflexivity|]. split; reflexivity. Qed.

Example identify_company_name_example :
  classified (identify_input_type ascii_db netloc_core (lit "Acme Spa"))
    (lit "company_name") (5 # 10).
Proof. eexists. split; [vm_compute; reflexivity|]. split; reflexivity. Qed.

(** A URL is a URL even when it holds eleven digits. *)
Example identify_url_before_piva :
  classified (identify_input_type ascii_db netloc_core
                (lit "http://example.com/12345678903"))
    (lit "url") 1.
Proof. eexists. split; [vm_compute; reflexivity|]. split; reflexivity. Qed.

(** The text before a domain makes a fifth type. *)
Lemma identify_company_with_domain_example :
  exists r,
    identify_input_type ascii_db netloc_core (lit "acme example.com") = Ok r /\
    input_type r = lit "company_with_domain" /\
    input_type r ∉ [lit "url"; lit "partita_iva"; lit "domain";
                    lit "company_name"].
Proof.
  eexists. split; [vm_compute; reflexivity|]. split; [reflexivity|].
  cbn [input_type]. rewrite !not_elem_of_cons.
  repeat split; try discriminate. apply not_elem_of_nil.
Qed.


End InputProcessorProps.

(** ** AsyncHelpers *)

Module AsyncHelpersProps.
Import AsyncHelpers.

Section Retry.
Context {A E : Type}.
Variable is_Exception : E -> bool.
Variable func : nat -> outcome A E.

Local Abbreviation loop := (retry_loop is_Exception func).
Local Abbreviation fails := (AsyncHelpers.fails is_Exception func).

Lemma loop_invocations_le max_retries todo attempt delay last :
  (invocations (loop max_retries todo attempt delay last) <= attempt + todo)%nat.
Proof.
  revert attempt delay last.
  induction todo as [|todo IH]; intros attempt delay last; cbn.
  - destruct last; cbn; lia.
  - destruct (func attempt) as [v|e]; cbn; [lia|].
    destruct (is_Exception e); cbn; [|lia].
    destruct (Z.of_nat attempt <? max_retries - 1); cbn.
    + specialize (IH (S attempt) (delay * 2)%Q (Some e)). lia.
    + specialize (IH (S attempt) delay (Some e)). lia.
Qed.

(** The loop up to the first attempt that is not caught: the attempts
    before it failed, each followed by a sleep of twice the previous delay. *)
Lemma loop_stops max_retries todo attempt delay last k (f : final A E) :
  Z.of_nat (attempt + todo) = max_retries ->
  (attempt <= k < attempt + todo)%nat ->
  (forall j, (attempt <= j < k)%nat -> fails j) ->
  match func k with
  | Returns v => f = Returned v
  | Raises e => is_Exception e = false /\ f = Raised e
  end ->
  loop max_retries todo attempt delay last
    = Run A E f (S k) (backoff delay (k - attempt)).
Proof.
  revert attempt delay last.
  induction todo as [|todo IH]; intros attempt delay last Hn Hk Hf Hend;
    [lia|].
  cbn [retry_loop].
  destruct (decide (attempt = k)) as [->|Hne].
  - rewrite Nat.sub_diag. cbn [backoff].
    destruct (func k) as [v|e].
    + now subst f.
    + destruct Hend as [-> ->]. reflexivity.
  - destruct (Hf attempt ltac:(lia)) as (e & -> & ->).
    destruct (Z.ltb_spec (Z.of_nat attempt) (max_retries - 1)); [|lia].
    rewrite (IH (S attempt) (delay * 2)%Q (Some e)); try assumption; try lia.
    + cbn [ending invocations sleeps].
      replace (k - attempt)%nat with (S (k - S attempt)) by lia.
      reflexivity.
    + intros j Hj. apply Hf. lia.
Qed.

(** The loop when every attempt fails: the last exception is raised again,
    and no sleep follows the last attempt. *)
Lemma loop_exhausted max_retries todo attempt delay last e_last :
  Z.of_nat (attempt + todo) = max_retries ->
  (forall j, (attempt <= j < attempt + todo)%nat -> fails j) ->
  match todo with
  | O => last = Some e_last
  | S _ => func (attempt + todo - 1) = Raises e_last
  end ->
  loop max_retries todo attempt delay last
    = Run A E (Raised e_last) (attempt + todo) (backoff delay (todo - 1)).
Proof.
  revert attempt delay last.
  induction todo as [|todo IH]; intros attempt delay last Hn Hf Hlast.
  - subst last. cbn. now rewrite Nat.add_0_r.
  - cbn [retry_loop].
    destruct (Hf attempt ltac:(lia)) as (e & He & Hex). rewrite He, Hex.
    destruct (Z.ltb_spec (Z.of_nat attempt) (max_retries - 1)).
    + destruct todo as [|todo]; [lia|].
      rewrite (IH (S attempt) (delay * 2)%Q (Some e)).
      * cbn [ending invocations sleeps]. f_equal; [lia|].
        cbn [Nat.sub backoff]. now rewrite Nat.sub_0_r.
      * lia.
      * intros j Hj. apply Hf. lia.
      * replace (S attempt + S todo - 1)%nat with (attempt + S (S todo) - 1)%nat
          by lia. exact Hlast.
    + assert (todo = O) by lia. subst todo.
      replace (attempt + 1 - 1)%nat with attempt in Hlast by lia.
      rewrite He in Hlast. injection Hlast as ->.
      cbn. f_equal. lia.
Qed.

(** C10, as the code has it.  With [max_retries] at least 1:
    [func] is invoked at most [max_retries] times; the result of the first
    invocation that succeeds is returned; an exception that is not an
    [Exception] is raised at once; when every attempt fails the exception of
    the last attempt is raised again; the sleeps before the retries start
    from [delay] and double, and none follows the last attempt. *)
Theorem retry_async_call_backoff (max_retries : Z) (delay : Q) :
  1 <= max_retries ->
  let n := Z.to_nat max_retries in
  let r := retry_async_call is_Exception func max_retries delay in
  (invocations r <= n)%nat /\
  (forall k v, (k < n)%nat -> (forall j, (j < k)%nat -> fails j) ->
     func k = Returns v ->
     ending r = Returned v /\ invocations r = S k /\
     sleeps r = backoff delay k) /\
  (forall k e, (k < n)%nat -> (forall j, (j < k)%nat -> fails j) ->
     func k = Raises e -> is_Exception e = false ->
     ending r = Raised e /\ invocations r = S k /\
     sleeps r = backoff delay k) /\
  ((forall j, (j < n)%nat -> fails j) ->
     exists e, func (n - 1) = Raises e /\
       ending r = Raised e /\ invocations r = n /\
       sleeps r = backoff delay (n - 1)).
Proof.
  intros Hmax n r.
  assert (Hn : Z.of_nat (0 + n) = max_retries) by (subst n; cbn; lia).
  split; [|split; [|split]].
  - apply (loop_invocations_le max_retries n 0 delay None).
  - intros k v Hk Hf Hv. subst r. unfold retry_async_call. fold n.
    rewrite (loop_stops max_retries n 0 delay None k (Returned v));
      [rewrite Nat.sub_0_r; repeat split|exact Hn|lia| |now rewrite Hv].
    intros j Hj. apply Hf. lia.
  - intros k e Hk Hf He Hex. subst r. unfold retry_async_call. fold n.
    rewrite (loop_stops max_retries n 0 delay None k (Raised e));
      [rewrite Nat.sub_0_r; repeat split|exact Hn|lia| |now rewrite He].
    intros j Hj. apply Hf. lia.
  - intros Hf.
    assert (Hpos : (1 <= n)%nat) by (subst n; lia).
    destruct (Hf (n - 1)%nat ltac:(lia)) as (e & He & _).
    exists e. split; [exact He|].
    subst r. unfold retry_async_call. fold n.
    rewrite (loop_exhausted max_retries n 0 delay None e); [repeat split|exact Hn| |].
    + intros j Hj. apply Hf. lia.
    + destruct n; [lia|]. exact He.
Qed.

End Retry.

(** Three attempts, the third succeeds: two sleeps, of 1 and 2 seconds. *)
Lemma retry_async_call_backoff_witness :
  let func := fun k : nat => if (k <? 2)%nat then Raises tt else Returns k in
  let r := retry_async_call (fun _ : unit => true) func 3 1 in
  1 <= 3 /\
  ending r = Returned 2%nat /\ invocations r = 3%nat /\
  sleeps r = backoff 1 2.
Proof.
  cbn zeta. split; [lia|].
  apply (retry_async_call_backoff (fun _ : unit => true)
           (fun k : nat => if (k <? 2)%nat then Raises tt else Returns k)
           3 1 ltac:(lia)).
  - cbn. lia.
  - intros j Hj. exists tt. split; [|reflexivity].
    destruct j as [|[|j]]; [reflexivity..|lia].
  - reflexivity.
Defined.

(** With no attempt to make, [raise None] raises a [TypeError] that comes
    from no attempt. *)
Lemma retry_async_call_zero :
  let func := fun _ : nat => @Raises nat unit tt in
  (forall j, (j < Z.to_nat 0)%nat -> fails (fun _ => true) func j) /\
  retry_async_call (fun _ : unit => true) func 0 1
    = Run nat unit RaisedTypeError 0 [] /\
  ~ exists k e, func k = Raises e /\
      ending (retry_async_call (fun _ : unit => true) func 0 1) = Raised e.
Proof.
  cbn zeta. split; [intros j Hj; cbn in Hj; lia|].
  split; [reflexivity|].
  intros (k & e & _ & H). discriminate H.
Qed.

End AsyncHelpersProps.

(** ** BusinessAnalyzer *)

Module BusinessAnalyzerProps.
Import InputProcessor BusinessAnalyzer.

Section Analyzer.
Context {V : Type}.
Variable domain_of : V -> option str.
Variable U : unicode.
Variable urlparse_netloc : str -> result str.
Variable fetch_and_analyze : str -> result V.
Variable no_domain : V.
Variable search_competitors : str -> result V.
Variable find_social_profiles : str -> str -> result V.
Variable analyze_financial_data : str -> str -> result V.
Variable generate_comprehensive_report : results V -> result str.
Variable progress_callback : option (str -> result unit).

Local Abbreviation run :=
  (analyze_company V domain_of U urlparse_netloc fetch_and_analyze no_domain
     search_competitors find_social_profiles analyze_financial_data
     generate_comprehensive_report progress_callback).

Local Abbreviation semrush :=
  (semrush_analyze_company V urlparse_netloc fetch_and_analyze no_domain).



End Analyzer.

(** A run in which every agent answers: the five run in order. *)
Example analyze_company_full_run :
  let out :=
    analyze_company unit (fun _ => None) ascii_db netloc_core
      (fun _ => Ok tt) tt (fun _ => Ok tt) (fun _ _ => Ok tt)
      (fun _ _ => Ok tt) (fun _ => Ok []) None (lit "example.com") 0 in
  marks unit (fst out) = full_order /\ error unit (snd out) = None.
Proof. vm_compute. split; reflexivity. Qed.


End BusinessAnalyzerProps.

(** ** No failure beyond a negative answer *)

Module TotalityProps.
Import DataValidator DataValidatorProps CacheManager CacheManagerProps.

(** C7.  [validate_partita_iva] returns a boolean on every string and
    raises nothing; a string that does not hold exactly eleven digits gives
    [False].  [CacheManager.get] returns a value or [None] on every key and
    raises nothing; a missing or expired entry gives [None]. *)
Theorem utilities_total
    (U : unicode) (piva : str)
    {V : Type} (self : CacheManager.t V) (cache_key : str) (now : Z) :
  (exists b : bool, validate_partita_iva U piva = Ok b) /\
  (length (digit_values U piva) <> 11%nat ->
     validate_partita_iva U piva = Ok false) /\
  (exists r : option V, fst (get self cache_key now) = Ok r) /\
  (cache self !! cache_key = None ->
     fst (get self cache_key now) = Ok None) /\
  (forall v ts, cache self !! cache_key = Some (v, ts) ->
     cache_duration self <= now - ts ->
     fst (get self cache_key now) = Ok None).
Proof.
  split; [apply validate_partita_iva_total|].
  split; [apply validate_partita_iva_wrong_length|].
  split; [apply get_total|]. split.
  - intros H. now rewrite get_absent.
  - intros v ts H Hage. now erewrite get_expired by eassumption.
Qed.

End TotalityProps.

(** * Part III: further properties of the code *)

(** ** RateLimiter *)

Module RateLimiterExtra.
Import RateLimiter RateLimiterProps RateLimiterClient.

Lemma reset_idempotent (s : t) (now : Z) :
  _reset_counters_if_needed (_reset_counters_if_needed s now) now
  = _reset_counters_if_needed s now.
Proof.
  unfold _reset_counters_if_needed at 2 3.
  destruct (reset_due (last_reset s) now) eqn:E.
  - unfold _reset_counters_if_needed, reset_due. cbn [last_reset].
    destruct (Z.leb_spec (60 * second) (now - now)); [|reflexivity].
    unfold second in *. lia.
  - unfold _reset_counters_if_needed. now rewrite E.
Qed.

Lemma can_make_call_answer (s : t) (a : str) (now : Z) :
  fst (can_make_call s a now) =
    match rate_limits (_reset_counters_if_needed s now) !! a with
    | Some e => calls e <? limit e
    | None => true
    end.
Proof.
  unfold can_make_call.
  destruct (rate_limits (_reset_counters_if_needed s now) !! a); reflexivity.
Qed.

(** X1.  Asking does not use up the quota: a second [can_make_call] at the
    same instant, for any API, answers what a first one would have and
    leaves the limiter as the first one left it. *)
Theorem can_make_call_idempotent (s : t) (a a' : str) (now : Z) :
  let s1 := snd (can_make_call s a now) in
  fst (can_make_call s1 a' now) = fst (can_make_call s a' now) /\
  snd (can_make_call s1 a' now) = s1.
Proof.
  cbn zeta. rewrite !can_make_call_answer, !can_make_call_state.
  now rewrite reset_idempotent.
Qed.

(** The limits are positive, so an empty window allows a call. *)
Lemma configured_limit_pos (a : str) (L : Z) :
  configured_limit a = Some L -> 0 < L.
Proof.
  unfold configured_limit.
  repeat case_bool_decide; intros [= <-]; lia.
Qed.

Lemma count_calls_nonneg (a : str) (l : list str) : 0 <= count_calls a l.
Proof. unfold count_calls. lia. Qed.

Lemma count_calls_nil (a : str) : count_calls a [] = 0.
Proof. reflexivity. Qed.

Ltac empty_window HL :=
  pose proof (configured_limit_pos _ _ HL); cbn [recorded];
  rewrite count_calls_nil; lia.

(** X2.  [get_wait_time] never answers a negative time, and waiting that
    long is enough: a check made that much later than the second clock
    reading is allowed.  When the clock has not gone backwards the wait is
    at most the 60 seconds of a window. *)
Theorem get_wait_time_suffices
    (t0 : Z) (ops : list op) (a : str) (now1 now2 : Z) :
  let s := run (init t0) ops in
  let w := fst (get_wait_time s a now1 now2) in
  let s' := snd (get_wait_time s a now1 now2) in
  0 <= w /\
  fst (can_make_call s' a (now2 + w)) = true /\
  (last_reset s <= now2 -> now1 <= now2 -> w <= 60 * second).
Proof.
  cbn zeta.
  pose proof (agrees_step _ _ (CanMakeCall a now1) (agrees_run t0 ops)) as Hs.
  cbn [step] in Hs. rewrite can_make_call_state in Hs.
  rewrite get_wait_time_state.
  set (s := run (init t0) ops) in *.
  set (s1 := _reset_counters_if_needed s now1) in *.
  set (v := observe (history t0 ops) (CanMakeCall a now1)) in *.
  destruct Hs as (_ & Hl & Hr).
  assert (Hlast : last_reset s1 = last_reset s \/ last_reset s1 = now1).
  { subst s1. unfold _reset_counters_if_needed.
    destruct (reset_due (last_reset s) now1); auto. }
  assert (Hw : fst (get_wait_time s a now1 now2) =
               match rate_limits s1 !! a with
               | Some e => if calls e <? limit e then 0
                           else Z.max 0 (window e * second
                                         - (now2 - last_reset s1))
               | None => 0
               end).
  { unfold get_wait_time, can_make_call. fold s1.
    destruct (rate_limits s1 !! a) as [e|] eqn:E; cbn; [|reflexivity].
    destruct (calls e <? limit e); cbn; [reflexivity|]. now rewrite E. }
  rewrite Hw, can_make_call_answer.
  specialize (Hr a). unfold entry_for in Hr.
  destruct (configured_limit a) as [L|] eqn:HL; cbn in Hr; rewrite Hr.
  - pose proof (configured_limit_pos _ _ HL) as HLpos.
    cbn [calls limit window].
    match goal with
    | |- context [count_calls a ?l <? L] =>
        pose proof (count_calls_nonneg a l) as Hc;
        destruct (Z.ltb_spec (count_calls a l) L) as [Hlt|Hge]
    end.
    + split; [lia|]. split; [|unfold second; lia].
      rewrite Z.add_0_r. unfold _reset_counters_if_needed.
      destruct (reset_due (last_reset s1) now2); cbn [rate_limits].
      * rewrite lookup_fmap, Hr. cbn. now apply Z.ltb_lt.
      * rewrite Hr. cbn. now apply Z.ltb_lt.
    + split; [lia|]. split; [|unfold second in *; lia].
      unfold _reset_counters_if_needed.
      assert (D : reset_due (last_reset s1)
                    (now2 + Z.max 0 (60 * second - (now2 - last_reset s1)))
                  = true).
      { unfold reset_due. apply Z.leb_le. lia. }
      rewrite D. cbn [rate_limits]. rewrite lookup_fmap, Hr. cbn.
      now apply Z.ltb_lt.
  - split; [lia|]. split; [|unfold second; lia].
    rewrite Z.add_0_r. unfold _reset_counters_if_needed.
    destruct (reset_due (last_reset s1) now2); cbn [rate_limits].
    + now rewrite lookup_fmap, Hr.
    + now rewrite Hr.
Qed.

(** X3.  A client that records a call only right after [can_make_call] has
    allowed it never goes over a limit: in every state of such a run each
    counter is between 0 and the limit of its API. *)
Theorem obedient_client_within_limit (t0 : Z) (ops : list op) :
  obeys t0 ops ->
  forall a e, rate_limits (run (init t0) ops) !! a = Some e ->
    0 <= calls e <= limit e.
Proof.
  intros Hob.
  enough (H : forall a L, configured_limit a = Some L ->
                count_calls a (recorded (history t0 ops)) <= L).
  { intros a e He.
    destruct (agrees_run t0 ops) as (_ & _ & Hr).
    rewrite (Hr a) in He. unfold entry_for in He.
    destruct (configured_limit a) as [L|] eqn:HL; [|discriminate].
    injection He as <-. cbn.
    split; [apply count_calls_nonneg|now apply H]. }
  induction Hob as [|ops b now _ IH|ops b now1 now2 _ IH|ops b now _ IH Hok];
    intros a L HL.
  - change (history t0 []) with (View t0 []). empty_window HL.
  - rewrite history_snoc. cbn [observe]. unfold observe_clock.
    destruct (reset_due _ now); [|now apply IH]. empty_window HL.
  - rewrite history_snoc. cbn [observe]. unfold observe_clock.
    destruct (reset_due _ now1); [|now apply IH]. empty_window HL.
  - change (ops ++ [CanMakeCall b now; RecordCall b])
      with (ops ++ [CanMakeCall b now] ++ [RecordCall b]).
    rewrite app_assoc, !history_snoc. cbn [observe recorded].
    rewrite count_calls_snoc.
    pose proof (agrees_step _ _ (CanMakeCall b now) (agrees_run t0 ops))
      as (_ & _ & Hr).
    cbn [step observe] in Hr. rewrite can_make_call_state in Hr.
    rewrite can_make_call_answer in Hok.
    assert (Hle : count_calls a
                    (recorded (observe_clock (history t0 ops) now)) <= L).
    { unfold observe_clock. destruct (reset_due _ now); [|now apply IH].
      empty_window HL. }
    case_bool_decide as Hab; [subst b|lia].
    rewrite (Hr a) in Hok. unfold entry_for in Hok.
    rewrite HL in Hok. cbn in Hok. apply Z.ltb_lt in Hok. lia.
Qed.

Lemma obedient_client_within_limit_witness :
  obeys 0 ([] ++ [CanMakeCall (lit "semrush") 1; RecordCall (lit "semrush")]) /\
  forall a e,
    rate_limits (run (init 0) ([] ++ [CanMakeCall (lit "semrush") 1;
                                      RecordCall (lit "semrush")])) !! a
      = Some e ->
    0 <= calls e <= limit e.
Proof.
  assert (H : obeys 0 ([] ++ [CanMakeCall (lit "semrush") 1;
                              RecordCall (lit "semrush")])).
  { apply obeys_record; [constructor|]. vm_compute. reflexivity. }
  split; [exact H|].
  exact (obedient_client_within_limit 0 _ H).
Defined.

End RateLimiterExtra.

(** ** CacheManager *)

Module CacheManagerExtra.
Import CacheManager CacheManagerProps.

Section Cache.
Context {V : Type}.
Implicit Types (self : t V) (k : str) (v : V).

(** The answer of [get] depends on the entry of the key alone. *)
Lemma get_answer self k now :
  fst (get self k now) =
    Ok (match cache self !! k with
        | Some (v, ts) => if now - ts <? cache_duration self then Some v else None
        | None => None
        end).
Proof.
  destruct (cache self !! k) as [[v ts]|] eqn:E.
  - destruct (Z.ltb_spec (now - ts) (cache_duration self)).
    + now erewrite get_fresh by eassumption.
    + now erewrite get_expired by eassumption.
  - now rewrite get_absent.
Qed.

(** X4.  What [set] stores, [get] returns for as long as the entry is
    younger than the cache duration, without touching the cache; and storing
    under one key changes no answer for another key. *)
Theorem set_get_round_trip self k k' v (t1 t2 : Z) :
  (t2 - t1 < cache_duration self ->
     get (set self k v t1) k t2 = (Ok (Some v), set self k v t1)) /\
  (k' <> k ->
     fst (get (set self k v t1) k' t2) = fst (get self k' t2)).
Proof.
  split.
  - intros H. apply (get_fresh _ _ v t1); [apply lookup_insert_eq|exact H].
  - intros Hne. rewrite !get_answer. cbn [set cache cache_duration].
    now rewrite lookup_insert_ne.
Qed.

(** X5.  Once [get] has met an expired entry the key is free again: every
    later [get] of it answers [None], whatever the clock says, and the
    entries of the other keys are where they were. *)
Theorem get_expired_forgets self k v (ts now : Z) :
  cache self !! k = Some (v, ts) ->
  cache_duration self <= now - ts ->
  let self' := snd (get self k now) in
  (forall now', get self' k now' = (Ok None, self')) /\
  (forall k', k' <> k -> cache self' !! k' = cache self !! k') /\
  cache_duration self' = cache_duration self.
Proof.
  intros H Hage. cbn zeta. rewrite (get_expired _ _ _ _ _ H Hage). cbn [snd].
  split; [|split; [|reflexivity]].
  - intros now'. apply get_absent. cbn. apply lookup_delete_eq.
  - intros k' Hne. cbn. now apply lookup_delete_ne.
Qed.

(** X6.  [clear_expired] keeps exactly the entries younger than the cache
    duration; a reader cannot tell whether it ran, since [get] answers the
    same before and after; and running it twice at one instant is running
    it once. *)
Theorem clear_expired_transparent self k (now : Z) :
  (forall v ts,
     cache (clear_expired self now) !! k = Some (v, ts) <->
     cache self !! k = Some (v, ts) /\ now - ts < cache_duration self) /\
  fst (get (clear_expired self now) k now) = fst (get self k now) /\
  clear_expired (clear_expired self now) now = clear_expired self now.
Proof.
  assert (Hl : forall k' v ts,
             cache (clear_expired self now) !! k' = Some (v, ts) <->
             cache self !! k' = Some (v, ts) /\ now - ts < cache_duration self).
  { intros k' v ts. unfold clear_expired. cbn [cache].
    rewrite map_lookup_filter_Some. cbn. split; intros [H1 H2]; (split; [exact H1|lia]). }
  split; [apply Hl|]. split.
  - rewrite !get_answer.
    replace (cache_duration (clear_expired self now))
      with (cache_duration self) by reflexivity.
    destruct (cache (clear_expired self now) !! k) as [[v ts]|] eqn:E.
    + apply Hl in E as [E Hage]. rewrite E.
      destruct (Z.ltb_spec (now - ts) (cache_duration self)); [reflexivity|lia].
    + destruct (cache self !! k) as [[v ts]|] eqn:E'; [|reflexivity].
      destruct (Z.ltb_spec (now - ts) (cache_duration self)) as [Hage|];
        [|reflexivity].
      assert (H : cache (clear_expired self now) !! k = Some (v, ts))
        by (apply Hl; auto).
      rewrite E in H. discriminate.
  - unfold clear_expired. cbn [cache cache_duration]. f_equal.
    apply map_eq. intros k'. apply option_eq. intros [v ts].
    rewrite !map_lookup_filter_Some. cbn. tauto.
Qed.

(** X7.  A cache created for zero hours or fewer serves nothing: as long
    as the clock has not gone back behind the time an entry was stored,
    [get] answers [None] for it. *)
Theorem get_zero_duration (hours : Z) k v (t1 t2 : Z) :
  hours <= 0 ->
  t1 <= t2 ->
  fst (get (set (init V hours) k v t1) k t2) = Ok None.
Proof.
  intros Hh Ht. rewrite get_answer. cbn [set cache cache_duration init].
  rewrite lookup_insert_eq.
  destruct (Z.ltb_spec (t2 - t1) (hours * hour)); [|reflexivity].
  unfold hour in *. lia.
Qed.

End Cache.

Lemma get_expired_forgets_witness :
  let self := set (init nat 24) (lit "k") 7%nat 0 in
  cache self !! lit "k" = Some (7%nat, 0) /\
  cache_duration self <= 24 * hour - 0 /\
  forall now', get (snd (get self (lit "k") (24 * hour))) (lit "k") now'
               = (Ok None, snd (get self (lit "k") (24 * hour))).
Proof.
  cbn zeta.
  assert (H1 : cache (set (init nat 24) (lit "k") 7%nat 0) !! lit "k"
               = Some (7%nat, 0)) by apply lookup_insert_eq.
  assert (H2 : cache_duration (set (init nat 24) (lit "k") 7%nat 0)
               <= 24 * hour - 0) by (cbn; lia).
  split; [exact H1|]. split; [exact H2|].
  apply (get_expired_forgets _ _ _ _ _ H1 H2).
Defined.

Lemma get_zero_duration_witness :
  0 <= 0 /\ 5 <= 5 /\
  fst (get (set (init nat 0) (lit "k") 7%nat 5) (lit "k") 5) = Ok None.
Proof.
  split; [lia|]. split; [lia|].
  apply (get_zero_duration 0 (lit "k") 7%nat 5 5); lia.
Defined.

End CacheManagerExtra.

(** ** CacheManager.get_cache_key: the form of the key *)

Module CacheKeyExtra.
Import CacheKey CacheKeyProps Shapes.












End CacheKeyExtra.

(** ** DataValidator.validate_partita_iva: what the check digit gives *)

Module PartitaIvaExtra.
Import DataValidator DataValidatorProps.

Section Validate.
Variable U : unicode.

Lemma digit_values_app (a b : str) :
  digit_values U (a ++ b) = digit_values U a ++ digit_values U b.
Proof. unfold digit_values. apply omap_app. Qed.



Lemma digit_at_app_l (l : list Z) (x : Z) (i : nat) :
  (i < length l)%nat -> digit_at (l ++ [x]) i = digit_at l i.
Proof. intros H. unfold digit_at. now apply app_nth1. Qed.

Lemma expected_check_digit_snoc (l : list Z) (x : Z) :
  length l = 10%nat ->
  expected_check_digit (l ++ [x]) = expected_check_digit l.
Proof.
  intros H. unfold expected_check_digit, S_odd, S_even.
  rewrite !digit_at_app_l by lia. reflexivity.
Qed.

(** X10.  Ten digits leave room for one check digit: there is a value
    between 0 and 9 such that an eleventh digit makes the number valid
    exactly when it has that value. *)
Theorem check_digit_unique (body : str) :
  length (digit_values U body) = 10%nat ->
  exists k, 0 <= k <= 9 /\
    forall c d, todecimal U c = Some d ->
      (validate_partita_iva U (body ++ [c]) = Ok true <-> Z.of_nat d = k).
Proof.
  intros Hlen. exists (expected_check_digit (digit_values U body)). split.
  - unfold expected_check_digit.
    pose proof (Z.mod_pos_bound
                  (10 - (S_odd (digit_values U body)
                         + S_even (digit_values U body)) mod 10) 10).
    lia.
  - intros c d Hc. rewrite validate_partita_iva_eq, digit_values_app.
    replace (digit_values U [c]) with [Z.of_nat d]
      by (symmetry; apply (digit_values_cons U c d [] Hc)).
    rewrite length_app, Hlen. cbn [length Nat.add Nat.eqb andb].
    rewrite expected_check_digit_snoc by exact Hlen.
    unfold digit_at at 1. rewrite app_nth2 by lia. rewrite Hlen. cbn [Nat.sub nth].
    split.
    + intros [= H]. now apply Z.eqb_eq in H.
    + intros H. f_equal. now apply Z.eqb_eq.
Qed.

End Validate.

Lemma doubled_reduced_range (x : Z) :
  0 <= x <= 9 -> 0 <= doubled_reduced x <= 9.
Proof. intros H. unfold doubled_reduced. destruct (Z.leb_spec 10 (2 * x)); lia. Qed.

Lemma doubled_reduced_inj (x y : Z) :
  0 <= x <= 9 -> 0 <= y <= 9 -> x <> y ->
  doubled_reduced x <> doubled_reduced y.
Proof.
  intros Hx Hy Hne. unfold doubled_reduced.
  destruct (Z.leb_spec 10 (2 * x)), (Z.leb_spec 10 (2 * y)); lia.
Qed.

(** Two sums that differ by less than ten in one term give two check
    digits. *)
Lemma check_digit_shift (T w w' : Z) :
  w <> w' -> -9 <= w - w' <= 9 ->
  (10 - (T + w) mod 10) mod 10 <> (10 - (T + w') mod 10) mod 10.
Proof. intros Hne Hr. Z.div_mod_to_equations. lia. Qed.

Ltac shift_by w w' :=
  match goal with
  | Hv : ?x = (10 - ?S mod 10) mod 10
    |- ?x <> (10 - ?S' mod 10) mod 10 =>
      let Hd := fresh in
      assert (Hd : (10 - (S - w + w) mod 10) mod 10
                   <> (10 - (S - w + w') mod 10) mod 10)
        by (apply check_digit_shift; lia);
      replace (S - w + w) with S in Hd by lia;
      replace (S - w + w') with S' in Hd by lia;
      congruence
  end.

Lemma one_digit_changed (da db : list Z) (x y : Z) :
  length (da ++ x :: db) = 11%nat ->
  0 <= x <= 9 -> 0 <= y <= 9 -> x <> y ->
  digit_at (da ++ x :: db) 10 = expected_check_digit (da ++ x :: db) ->
  digit_at (da ++ y :: db) 10 <> expected_check_digit (da ++ y :: db).
Proof.
  intros Hlen Hx Hy Hne.
  pose proof (doubled_reduced_range x Hx).
  pose proof (doubled_reduced_range y Hy).
  pose proof (doubled_reduced_inj x y Hx Hy Hne).
  do 12 (try (destruct da as [|? da])).
  all: cbn [app length] in Hlen; try discriminate Hlen.
  all: do 12 (try (destruct db as [|? db]));
    cbn [length] in Hlen; try discriminate Hlen.
  all: unfold expected_check_digit, S_odd, S_even, digit_at; cbn [app nth].
  all: intros Hv.
  all: first [ shift_by x y
             | shift_by (doubled_reduced x) (doubled_reduced y)
             | congruence ].
Qed.

Section Detection.
Variable U : unicode.

(** X11.  One wrong digit is always noticed: in a valid number, putting
    another digit in the place of any single digit gives an invalid one. *)
Theorem single_digit_error_detected
    (a b : str) (c c' : char) (d d' : nat) :
  todecimal U c = Some d -> todecimal U c' = Some d' ->
  (d < 10)%nat -> (d' < 10)%nat -> d <> d' ->
  validate_partita_iva U (a ++ c :: b) = Ok true ->
  validate_partita_iva U (a ++ c' :: b) = Ok false.
Proof.
  intros Hc Hc' Hd Hd' Hne.
  rewrite !validate_partita_iva_eq, !digit_values_app.
  rewrite (digit_values_cons U c d b Hc), (digit_values_cons U c' d' b Hc').
  rewrite !length_app. cbn [length].
  intros [= Hv]. apply andb_true_iff in Hv as [Hlen Hv].
  rewrite Hlen. cbn [andb]. f_equal.
  apply Nat.eqb_eq in Hlen. apply Z.eqb_eq in Hv. apply Z.eqb_neq.
  apply (one_digit_changed _ _ (Z.of_nat d) (Z.of_nat d'));
    [rewrite length_app; exact Hlen|lia|lia|lia|exact Hv].
Qed.

End Detection.

Lemma single_digit_error_detected_witness :
  validate_partita_iva ascii_db (lit "12345" ++ 54%N :: lit "78903") = Ok true /\
  validate_partita_iva ascii_db (lit "12345" ++ 57%N :: lit "78903") = Ok false.
Proof.
  assert (H : validate_partita_iva ascii_db (lit "12345" ++ 54%N :: lit "78903")
              = Ok true) by (vm_compute; reflexivity).
  split; [exact H|].
  apply (single_digit_error_detected ascii_db (lit "12345") (lit "78903")
           54%N 57%N 6 9);
    [reflexivity|reflexivity|lia|lia|discriminate|exact H].
Defined.


Lemma check_digit_unique_witness :
  length (digit_values ascii_db (lit "1234567890")) = 10%nat /\
  exists k, 0 <= k <= 9 /\
    forall c d, todecimal ascii_db c = Some d ->
      (validate_partita_iva ascii_db (lit "1234567890" ++ [c]) = Ok true
       <-> Z.of_nat d = k).
Proof.
  split; [reflexivity|].
  apply (check_digit_unique ascii_db (lit "1234567890")). reflexivity.
Defined.

End PartitaIvaExtra.

(** ** DataValidator.sanitize_company_name *)

Module SanitizeExtra.
Import InputProcessor DataValidatorMore.

(** *** [strip] *)

Lemma lstrip_suffix (s : str) :
  exists p, s = p ++ lstrip s /\ Forall (fun c => isspace c = true) p.
Proof.
  induction s as [|c s (p & Hp & Hall)]; cbn [lstrip].
  - exists []. split; [reflexivity|constructor].
  - destruct (isspace c) eqn:E.
    + exists (c :: p). split; [cbn; now f_equal|now constructor].
    + exists []. split; [reflexivity|constructor].
Qed.

Lemma lstrip_head (s : str) (c : char) (l : str) :
  lstrip s = c :: l -> isspace c = false.
Proof.
  induction s as [|x s IH]; cbn [lstrip]; [discriminate|].
  destruct (isspace x) eqn:E; [exact IH|].
  now intros [= <- _].
Qed.

Lemma lstrip_fixed (s : str) :
  (forall c l, s = c :: l -> isspace c = false) -> lstrip s = s.
Proof.
  destruct s as [|c l]; [reflexivity|].
  intros H. cbn [lstrip]. now rewrite (H c l eq_refl).
Qed.

Lemma rstrip_prefix (s : str) :
  exists q, s = rstrip s ++ q /\ Forall (fun c => isspace c = true) q.
Proof.
  unfold rstrip. destruct (lstrip_suffix (rev s)) as (p & Hp & Hall).
  exists (rev p). split.
  - rewrite <- rev_app_distr, <- Hp. now rewrite rev_involutive.
  - now apply Forall_rev.
Qed.

Lemma rstrip_last (s l : str) (c : char) :
  rstrip s = l ++ [c] -> isspace c = false.
Proof.
  unfold rstrip. intros H.
  apply (f_equal (@rev N)) in H. rewrite rev_involutive, rev_app_distr in H.
  cbn in H. now apply lstrip_head in H.
Qed.

Lemma rstrip_fixed (s : str) :
  (forall l c, s = l ++ [c] -> isspace c = false) -> rstrip s = s.
Proof.
  intros H. unfold rstrip. rewrite lstrip_fixed; [apply rev_involutive|].
  intros c l Hr. apply (H (rev l) c).
  apply (f_equal (@rev N)) in Hr. rewrite rev_involutive in Hr.
  exact Hr.
Qed.

(** What [strip] returns sits inside its argument, between whitespace, and
    neither begins nor ends with whitespace. *)
Lemma strip_infix (s : str) :
  exists p q, s = p ++ strip s ++ q /\
    Forall (fun c => isspace c = true) p /\
    Forall (fun c => isspace c = true) q.
Proof.
  unfold strip.
  destruct (lstrip_suffix s) as (p & Hp & Hpa).
  destruct (rstrip_prefix (lstrip s)) as (q & Hq & Hqa).
  exists p, q. split; [|split; assumption].
  rewrite <- Hq. exact Hp.
Qed.

Lemma strip_head (s : str) (c : char) (l : str) :
  strip s = c :: l -> isspace c = false.
Proof.
  unfold strip. intros H.
  destruct (rstrip_prefix (lstrip s)) as (q & Hq & _).
  rewrite H in Hq. cbn in Hq. now apply lstrip_head in Hq.
Qed.

Lemma strip_last (s l : str) (c : char) :
  strip s = l ++ [c] -> isspace c = false.
Proof. unfold strip. apply rstrip_last. Qed.

Lemma strip_fixed (s : str) :
  (forall c l, s = c :: l -> isspace c = false) ->
  (forall l c, s = l ++ [c] -> isspace c = false) ->
  strip s = s.
Proof.
  intros H1 H2. unfold strip. rewrite (lstrip_fixed s H1).
  now apply rstrip_fixed.
Qed.

(** *** Runs of whitespace *)

Lemma no_double_space_cons (x : char) (t : str) :
  no_double_space (x :: t) <->
  (isspace x = true -> forall y t', t = y :: t' -> isspace y = false) /\
  no_double_space t.
Proof.
  unfold no_double_space. split.
  - intros H. split.
    + intros Hx y t' ->. now apply (H [] x y t').
    + intros l1 a b l2 ->. apply (H (x :: l1) a b l2). reflexivity.
  - intros [H1 H2] l1 a b l2 E Ha.
    destruct l1 as [|z l1]; cbn in E; injection E as -> E.
    + now apply (H1 Ha b l2).
    + now apply (H2 l1 a b l2).
Qed.

Lemma collapse_from_spaces (s : str) (b : bool) :
  spaces_are_plain (collapse_from s b).
Proof.
  revert b. induction s as [|c s IH]; intros b x; cbn [collapse_from].
  - intros H. by inversion H.
  - destruct (isspace c) eqn:E.
    + destruct b; [apply IH|].
      intros [->|H]%elem_of_cons; [reflexivity|now apply (IH true)].
    + intros [->|H]%elem_of_cons; [congruence|now apply (IH false)].
Qed.

Lemma collapse_from_head (s : str) (y : char) (t : str) :
  collapse_from s true = y :: t -> isspace y = false.
Proof.
  induction s as [|c s IH]; cbn [collapse_from]; [discriminate|].
  destruct (isspace c) eqn:E; [exact IH|]. now intros [= <- _].
Qed.

Lemma collapse_from_no_double (s : str) (b : bool) :
  no_double_space (collapse_from s b).
Proof.
  revert b. induction s as [|c s IH]; intros b; cbn [collapse_from].
  - intros [|? ?] ? ? ? E; discriminate E.
  - destruct (isspace c) eqn:E.
    + destruct b; [apply IH|].
      apply no_double_space_cons. split; [|apply IH].
      intros _ y t'. apply collapse_from_head.
    + apply no_double_space_cons. split; [congruence|apply IH].
Qed.

Lemma collapse_from_harmless (s : str) (b : bool) :
  harmless s -> harmless (collapse_from s b).
Proof.
  intros H. revert b. induction H as [|c s Hc _ IH]; intros b;
    cbn [collapse_from]; [constructor|].
  destruct (isspace c); [destruct b|]; try apply IH;
    constructor; (reflexivity || assumption || apply IH).
Qed.

Lemma collapse_from_fixed (s : str) (b : bool) :
  spaces_are_plain s -> no_double_space s ->
  (b = true -> forall c l, s = c :: l -> isspace c = false) ->
  collapse_from s b = s.
Proof.
  revert b. induction s as [|c s IH]; intros b Hp Hd Hb; [reflexivity|].
  cbn [collapse_from].
  apply no_double_space_cons in Hd as [Hd1 Hd2].
  assert (Hp' : spaces_are_plain s).
  { intros x Hx. apply Hp. now right. }
  destruct (isspace c) eqn:E.
  - destruct b; [rewrite (Hb eq_refl c s eq_refl) in E; discriminate|].
    assert (Hc : c = 32%N) by (apply Hp; [left|exact E]).
    rewrite <- Hc.
    f_equal. apply (IH true Hp' Hd2). intros _. now apply Hd1.
  - f_equal. apply (IH false Hp' Hd2). discriminate.
Qed.

Lemma remove_dangerous_harmless (s : str) : harmless (remove_dangerous s).
Proof.
  unfold harmless, remove_dangerous. apply Forall_forall. intros c Hc.
  apply list_elem_of_In, filter_In in Hc as [_ Hc].
  now apply negb_true_iff.
Qed.

Lemma remove_dangerous_fixed (s : str) :
  harmless s -> remove_dangerous s = s.
Proof.
  unfold remove_dangerous. induction 1 as [|c s Hc _ IH]; [reflexivity|].
  cbn [List.filter]. rewrite Hc. cbn. now f_equal.
Qed.

(** Properties of a text pass to what [strip] leaves of it. *)
Lemma strip_spaces_are_plain (s : str) :
  spaces_are_plain s -> spaces_are_plain (strip s).
Proof.
  destruct (strip_infix s) as (p & q & Hs & _).
  intros H c Hc. apply H. rewrite Hs, !elem_of_app. auto.
Qed.

Lemma strip_no_double_space (s : str) :
  no_double_space s -> no_double_space (strip s).
Proof.
  destruct (strip_infix s) as (p & q & Hs & _).
  intros H l1 a b l2 E. apply (H (p ++ l1) a b (l2 ++ q)).
  rewrite Hs, E, <- !app_assoc. reflexivity.
Qed.

Lemma strip_harmless (s : str) : harmless s -> harmless (strip s).
Proof.
  destruct (strip_infix s) as (p & q & Hs & _).
  unfold harmless. intros H. rewrite Hs in H.
  apply Forall_app in H as [_ H]. now apply Forall_app in H as [H _].
Qed.

(** X12.  A sanitized name holds none of the characters of the class
    (angle brackets, quotes, slash, backslash, braces, parentheses,
    semicolon), its only whitespace is single spaces, and it neither begins
    nor ends with one. *)
Theorem sanitize_company_name_clean (name : str) :
  harmless (sanitize_company_name name) /\
  single_spaced (sanitize_company_name name).
Proof.
  unfold sanitize_company_name, collapse_spaces. cbn zeta. split.
  - apply strip_harmless, collapse_from_harmless, remove_dangerous_harmless.
  - split; [|split; [|split]].
    + apply strip_spaces_are_plain, collapse_from_spaces.
    + apply strip_no_double_space, collapse_from_no_double.
    + apply strip_head.
    + apply strip_last.
Qed.

(** X13.  A name that is already clean comes back unchanged, so sanitizing
    a second time changes nothing. *)
Theorem sanitize_company_name_idempotent (name : str) :
  (harmless name -> single_spaced name -> sanitize_company_name name = name) /\
  sanitize_company_name (sanitize_company_name name)
    = sanitize_company_name name.
Proof.
  assert (Hfix : forall s, harmless s -> single_spaced s ->
                           sanitize_company_name s = s).
  { intros s Hh (Hp & Hd & Hhead & Hlast).
    unfold sanitize_company_name, collapse_spaces. cbn zeta.
    rewrite (remove_dangerous_fixed s Hh).
    rewrite (collapse_from_fixed s false Hp Hd) by discriminate.
    now apply strip_fixed. }
  split; [apply Hfix|].
  destruct (sanitize_company_name_clean name) as [H1 H2].
  now apply Hfix.
Qed.

End SanitizeExtra.

(** ** Domains: DataValidator.validate_domain and the domains that
    identify_input_type extracts *)

Module DomainExtra.
Import Re ReProps InputProcessor InputProcessorProps DataValidatorMore DomainShape.

(** *** Positions and pieces *)

Lemma in_class_drop (s : str) (p : char -> bool) (i j : nat) :
  in_class s p (i + j) <-> in_class (drop i s) p j.
Proof. unfold in_class, char. now rewrite lookup_drop. Qed.

Lemma in_class_tail (c : char) (s : str) (p : char -> bool) (j : nat) :
  in_class (c :: s) p (S j) -> in_class s p j.
Proof. exact id. Qed.

Lemma in_class_skip (c : char) (s : str) (p : char -> bool) (j : nat) :
  in_class s p j -> in_class (c :: s) p (S j).
Proof. exact id. Qed.

Lemma in_class_head (s : str) (p : char -> bool) :
  in_class s p 0 -> exists c s', s = c :: s' /\ p c = true.
Proof.
  intros (c & Hc & Hp). destruct s as [|x s']; [discriminate|].
  injection Hc as ->. now exists c, s'.
Qed.

Lemma in_class_app_r (w s : str) (p : char -> bool) (j : nat) :
  in_class (w ++ s) p (length w + j) <-> in_class s p j.
Proof.
  unfold in_class, char.
  assert (E : (w ++ s) !! (length w + j)%nat = s !! j).
  { rewrite lookup_app_r by apply Nat.le_add_r. f_equal. lia. }
  now rewrite E.
Qed.

(** Past a first character and a piece [w]. *)
Lemma in_class_past (c : char) (w s : str) (p : char -> bool) (i j : nat) :
  i = S (length w + j) ->
  in_class (c :: w ++ s) p i <-> in_class s p j.
Proof. intros ->. apply (in_class_app_r w s p j). Qed.

(** [n] characters of a class at the head of a text. *)
Lemma class_prefix (s : str) (p : char -> bool) (n : nat) :
  (forall j, (j < n)%nat -> in_class s p j) ->
  exists w s', s = w ++ s' /\ length w = n /\ Forall (fun c => p c = true) w.
Proof.
  revert s. induction n as [|n IH]; intros s H.
  - exists [], s. repeat split. constructor.
  - destruct (in_class_head s p (H 0%nat ltac:(lia))) as (c & s' & -> & Hc).
    destruct (IH s') as (w & s'' & -> & Hlen & Hall).
    { intros j Hj. apply (in_class_tail c), H. lia. }
    exists (c :: w), s''. repeat split; [cbn; lia|now constructor].
Qed.

Lemma class_prefix_inv (w s : str) (p : char -> bool) (j : nat) :
  Forall (fun c => p c = true) w -> (j < length w)%nat ->
  in_class (w ++ s) p j.
Proof.
  intros Hall Hj. destruct (lookup_lt_is_Some_2 w j Hj) as [c Hc].
  exists c. split; [now apply lookup_app_l_Some|].
  rewrite Forall_forall in Hall. apply Hall.
  now apply list_elem_of_lookup_2 in Hc.
Qed.

Lemma dot_char (c : char) : dot c = true -> c = 46%N.
Proof. unfold dot. now intros H%N.eqb_eq. Qed.

(** The characters the body of the pattern needs, at the head of a text. *)
Lemma body_prefix (s : str) (n m : nat) :
  in_class s alnum 0 ->
  (forall j, (j < n)%nat -> in_class s alnum_hyphen (1 + j)) ->
  in_class s alnum (1 + n) ->
  in_class s dot (2 + n) ->
  (forall j, (j < m)%nat -> in_class s alpha (3 + n + j)) ->
  exists a mid b tld post,
    s = (a :: mid ++ b :: 46%N :: tld) ++ post /\
    length mid = n /\ length tld = m /\
    alnum a = true /\ Forall (fun c => alnum_hyphen c = true) mid /\
    alnum b = true /\ Forall (fun c => alpha c = true) tld.
Proof.
  intros H0 H1 H2 H3 H4.
  destruct (in_class_head s alnum H0) as (a & s1 & -> & Ha).
  destruct (class_prefix s1 alnum_hyphen n) as (mid & s2 & -> & Hn & Hmid).
  { intros j Hj. apply (in_class_tail a), (H1 j Hj). }
  assert (H2' : in_class s2 alnum 0).
  { apply (in_class_past a mid s2 alnum (1 + n) 0); [lia|exact H2]. }
  destruct (in_class_head s2 alnum H2') as (b & s3 & -> & Hb).
  assert (H3' : in_class s3 dot 0).
  { apply (in_class_tail b).
    apply (in_class_past a mid (b :: s3) dot (2 + n) 1); [lia|exact H3]. }
  destruct (in_class_head s3 dot H3') as (c & s4 & -> & Hc).
  apply dot_char in Hc. subst c.
  destruct (class_prefix s4 alpha m) as (tld & post & -> & Hm & Htld).
  { intros j Hj. apply (in_class_tail 46%N), (in_class_tail b).
    apply (in_class_past a mid (b :: 46%N :: s4) alpha (3 + n + j) (S (S j)));
      [lia|exact (H4 j Hj)]. }
  exists a, mid, b, tld, post. repeat split; try assumption.
  cbn. rewrite <- !app_assoc. reflexivity.
Qed.

(** A text that begins with a domain has those characters. *)
Lemma body_positions (a b : char) (mid tld post : str) :
  alnum a = true -> Forall (fun c => alnum_hyphen c = true) mid ->
  alnum b = true -> Forall (fun c => alpha c = true) tld ->
  let s := (a :: mid ++ b :: 46%N :: tld) ++ post in
  let n := length mid in
  in_class s alnum 0 /\
  (forall j, (j < n)%nat -> in_class s alnum_hyphen (1 + j)) /\
  in_class s alnum (1 + n) /\
  in_class s dot (2 + n) /\
  (forall j, (j < length tld)%nat -> in_class s alpha (3 + n + j)).
Proof.
  intros Ha Hmid Hb Htld. cbn zeta.
  replace ((a :: mid ++ b :: 46%N :: tld) ++ post)
    with (a :: mid ++ b :: 46%N :: tld ++ post)
    by (cbn; rewrite <- !app_assoc; reflexivity).
  split; [now exists a|]. split; [|split; [|split]].
  - intros j Hj. apply (in_class_skip a). now apply class_prefix_inv.
  - apply (in_class_past a mid _ alnum (1 + length mid) 0); [lia|].
    now exists b.
  - apply (in_class_past a mid _ dot (2 + length mid) 1); [lia|].
    apply in_class_skip. now exists 46%N.
  - intros j Hj.
    apply (in_class_past a mid _ alpha (3 + length mid + j) (S (S j))); [lia|].
    do 2 apply in_class_skip. now apply class_prefix_inv.
Qed.

Section Domains.
Variable U : unicode.

(** What a match of the body of the pattern at [i] says about the text. *)
Lemma body_inv (u : str) (rest : regex) (i e : nat) :
  matches U u (domain_body ++ rest) i e ->
  exists n m, (1 <= n <= 61)%nat /\ (2 <= m)%nat /\
    in_class u alnum (i + 0) /\
    (forall j, (j < n)%nat -> in_class u alnum_hyphen (i + (1 + j))) /\
    in_class u alnum (i + (1 + n)) /\
    in_class u dot (i + (2 + n)) /\
    (forall j, (j < m)%nat -> in_class u alpha (i + (3 + n + j))) /\
    matches U u rest (i + (3 + n + m)) e.
Proof.
  unfold domain_body, once. cbn [app]. intros H0.
  inversion H0 as [|? ? ? ? ? n0 ? L0 B0 A0 H1| | |]; subst; clear H0.
  inversion H1 as [|? ? ? ? ? n ? L1 B1 A1 H2| | |]; subst; clear H1.
  inversion H2 as [|? ? ? ? ? n2 ? L2 B2 A2 H3| | |]; subst; clear H2.
  inversion H3 as [|? ? ? ? ? n3 ? L3 B3 A3 H4| | |]; subst; clear H3.
  inversion H4 as [|? ? ? ? ? m ? L4 B4 A4 H5| | |]; subst; clear H4.
  specialize (B0 _ eq_refl). specialize (B1 _ eq_refl).
  specialize (B2 _ eq_refl). specialize (B3 _ eq_refl).
  assert (n0 = 1%nat) by lia. assert (n2 = 1%nat) by lia.
  assert (n3 = 1%nat) by lia. subst n0 n2 n3.
  exists n, m. split; [lia|]. split; [lia|].
  split; [apply (A0 0%nat); lia|].
  split; [intros j Hj;
          replace (i + (1 + j))%nat with (i + 1 + j)%nat by lia; now apply A1|].
  split; [replace (i + (1 + n))%nat with (i + 1 + n + 0)%nat by lia;
          apply A2; lia|].
  split; [replace (i + (2 + n))%nat with (i + 1 + n + 1 + 0)%nat by lia;
          apply A3; lia|].
  split.
  - intros j Hj.
    replace (i + (3 + n + j))%nat with (i + 1 + n + 1 + 1 + j)%nat by lia.
    now apply A4.
  - replace (i + (3 + n + m))%nat with (i + 1 + n + 1 + 1 + m)%nat by lia.
    exact H5.
Qed.

Lemma domain_shaped_length (d : str) :
  domain_shaped d -> (6 <= length d)%nat.
Proof.
  intros (a & mid & b & tld & -> & _ & _ & Hm & _ & _ & Ht).
  cbn. rewrite length_app. cbn. lia.
Qed.

(** A text of the shape is accepted, alone or before one line feed. *)
Lemma domain_shaped_valid (core nl : str) :
  domain_shaped core -> nl = [] \/ nl = [10%N] ->
  validate_domain U (core ++ nl) = true.
Proof.
  intros (a & mid & b & tld & -> & Ha & Hmid & Hn & Hb & Htld & Hm) Hnl.
  unfold validate_domain.
  assert (Hd : is_domain U ((a :: mid ++ b :: 46%N :: tld) ++ nl)).
  { apply is_domain_iff. exists (length mid), (length tld).
    destruct (body_positions a b mid tld nl Ha Hmid Hb Htld)
      as (P0 & P1 & P2 & P3 & P4).
    repeat (split; [assumption || lia|]).
    assert (Hlen : length ((a :: mid ++ b :: 46%N :: tld) ++ nl)
                   = (3 + length mid + length tld + length nl)%nat).
    { rewrite length_app. cbn [length]. rewrite length_app. cbn [length]. lia. }
    unfold at_end. rewrite Hlen.
    destruct Hnl as [-> | ->]; cbn [length].
    - apply orb_true_iff. left. apply Nat.eqb_eq. lia.
    - apply orb_true_iff. right. apply andb_true_iff. split.
      + apply Nat.eqb_eq. lia.
      + apply bool_decide_eq_true.
        replace ((a :: mid ++ b :: 46%N :: tld) ++ [10%N])
          with (a :: mid ++ b :: 46%N :: tld ++ [10%N])
          by (cbn; rewrite <- !app_assoc; reflexivity).
        assert (H : in_class (a :: mid ++ b :: 46%N :: tld ++ [10%N])
                      (fun c => (c =? 10)%N) (3 + length mid + length tld)).
        { apply (in_class_past a mid _ _ _ (S (S (length tld)))); [lia|].
          do 2 apply in_class_skip.
          replace (length tld) with (length tld + 0)%nat by lia.
          apply (proj2 (in_class_app_r tld [10%N] _ 0)). now exists 10%N. }
        destruct H as (c & Hc & Hc10). apply N.eqb_eq in Hc10. now subst c. }
  apply match_iff in Hd as [m Hm']. now rewrite Hm'.
Qed.

(** X14.  [validate_domain] accepts exactly the texts made of a letter or
    digit, one to sixty-one letters, digits or hyphens, a letter or digit,
    a dot and two letters or more, alone or followed by one line feed.  So
    a valid domain has one dot only and a name with subdomains is not
    valid. *)
Theorem validate_domain_shape (d : str) :
  validate_domain U d = true <->
  exists core, domain_shaped core /\ (d = core \/ d = core ++ [10%N]).
Proof.
  split.
  - unfold validate_domain. intros H.
    assert (Hd : is_domain U d).
    { apply match_iff. destruct (match_ U domain_pattern d); [now eexists|discriminate]. }
    apply is_domain_iff in Hd
      as (n & m & Hn & Hm & H0 & H1 & H2 & H3 & H4 & He).
    destruct (body_prefix d n m H0 H1 H2 H3 H4)
      as (a & mid & b & tld & post & -> & Ln & Lm & Ha & Hmid & Hb & Htld).
    exists (a :: mid ++ b :: 46%N :: tld). split.
    { exists a, mid, b, tld. repeat split; try assumption; lia. }
    assert (Hlen : length (a :: mid ++ b :: 46%N :: tld) = (3 + n + m)%nat).
    { cbn. rewrite length_app. cbn. lia. }
    unfold at_end in He. rewrite length_app, Hlen in He.
    apply orb_true_iff in He as [He|He].
    + apply Nat.eqb_eq in He. left.
      destruct post; [now rewrite app_nil_r|cbn in He; lia].
    + apply andb_true_iff in He as [He1 He2].
      apply Nat.eqb_eq in He1. apply bool_decide_eq_true in He2.
      right. f_equal.
      destruct post as [|c [|? ?]]; cbn in He1; try lia.
      rewrite <- Hlen in He2.
      rewrite lookup_app_r in He2 by lia.
      rewrite Nat.sub_diag in He2. cbn in He2. now injection He2 as ->.
  - intros (core & Hc & [-> | ->]).
    + rewrite <- (app_nil_r core). apply domain_shaped_valid; auto.
    + apply domain_shaped_valid; auto.
Qed.

End Domains.

End DomainExtra.

(** ** InputProcessor.identify_input_type: what it extracts *)

Module IdentifyExtra.
Import Re ReProps InputProcessor InputProcessorProps DataValidatorMore
  DomainShape DomainExtra SanitizeExtra.

Lemma type_names_differ :
  lit "url" <> lit "domain" /\ lit "url" <> lit "company_with_domain" /\
  lit "partita_iva" <> lit "domain" /\
  lit "partita_iva" <> lit "company_with_domain" /\
  lit "company_name" <> lit "domain" /\
  lit "company_name" <> lit "company_with_domain" /\
  lit "url" <> lit "partita_iva" /\ lit "domain" <> lit "partita_iva" /\
  lit "company_with_domain" <> lit "partita_iva" /\
  lit "company_name" <> lit "partita_iva".
Proof. repeat split; discriminate. Qed.

Lemma take_app_exact {A} (w s : list A) (n : nat) :
  length w = n -> take n (w ++ s) = w.
Proof. intros <-. now rewrite take_app_length. Qed.

Section Identify.
Variable U : unicode.
Variable urlparse_netloc : str -> result str.

Local Abbreviation identify := (identify_input_type U urlparse_netloc).

Lemma search_sound (r : regex) (u : str) (st e : nat) :
  search U r u = Some (st, e) -> matches U u r st e.
Proof.
  unfold search. intros H. apply search_from_sound in H as (_ & H & _).
  now apply match_here_sound.
Qed.

(** The text a match of the domain pattern inside a text covers. *)
Lemma domain_in_text_group (u : str) (st e : nat) :
  matches U u domain_in_text_pattern st e ->
  domain_shaped (group u (st, e)).
Proof.
  unfold domain_in_text_pattern. cbn [app]. intros H.
  inversion H as [| |? ? ? _ H1| |]; subst; clear H.
  change (once alnum :: Class alnum_hyphen 1 (Some 61%nat) :: once alnum
          :: once dot :: Class alpha 2 None :: [WordBoundary])
    with (domain_body ++ [WordBoundary]) in H1.
  apply body_inv in H1 as (n & m & Hn & Hm & H0 & H1 & H2 & H3 & H4 & Hr).
  inversion Hr as [| |? ? ? _ Hn'| |]; subst; clear Hr.
  inversion Hn'; subst; clear Hn'.
  destruct (body_prefix (drop st u) n m)
    as (a & mid & b & tld & post & Hu & Ln & Lm & Ha & Hmid & Hb & Htld).
  { exact (proj1 (in_class_drop u _ st _) H0). }
  { intros j Hj. exact (proj1 (in_class_drop u _ st _) (H1 j Hj)). }
  { exact (proj1 (in_class_drop u _ st _) H2). }
  { exact (proj1 (in_class_drop u _ st _) H3). }
  { intros j Hj. exact (proj1 (in_class_drop u _ st _) (H4 j Hj)). }
  unfold group. cbn [fst snd]. rewrite Hu.
  rewrite take_app_exact by (cbn; rewrite length_app; cbn; lia).
  exists a, mid, b, tld. repeat split; try assumption; lia.
Qed.

Lemma line_feed_is_space : isspace 10%N = true.
Proof. reflexivity. Qed.

(** X15.  A domain that [identify_input_type] reports, alone (type domain)
    or inside a text (type company_with_domain), has the shape of a domain
    and passes [DataValidator.validate_domain]. *)
Theorem identified_domain_is_valid (s : str) (r : identified) :
  identify s = Ok r ->
  input_type r = lit "domain" \/ input_type r = lit "company_with_domain" ->
  exists dom, extracted_data r !! lit "domain" = Some dom /\
    domain_shaped dom /\ validate_domain U dom = true.
Proof.
  destruct type_names_differ as (N1 & N2 & N3 & N4 & N5 & N6 & _).
  unfold identify_input_type.
  destruct (startswith (strip s) (lit "http://")
            || startswith (strip s) (lit "https://")).
  { destruct (urlparse_netloc (strip s)); [|discriminate].
    unfold mbind, result_bind, bind. intros [= <-] [H|H]; cbn [input_type] in H;
      congruence. }
  destruct (search U (piva_pattern U) (strip s)).
  { intros [= <-] [H|H]; cbn [input_type] in H; congruence. }
  destruct (match_ U domain_pattern (strip s)) eqn:Em.
  { intros [= <-] _. cbn [extracted_data]. exists (strip s).
    split; [apply lookup_insert_eq|].
    assert (Hv : validate_domain U (strip s) = true)
      by (unfold validate_domain; now rewrite Em).
    split; [|exact Hv].
    apply validate_domain_shape in Hv as (core & Hc & [-> | E]); [exact Hc|].
    apply strip_last in E. rewrite line_feed_is_space in E. discriminate. }
  destruct (search U domain_in_text_pattern (strip s)) as [[st e]|] eqn:Es.
  { intros [= <-] _. cbn [extracted_data].
    exists (group (strip s) (st, e)). split.
    - rewrite lookup_insert_ne by discriminate. apply lookup_insert_eq.
    - pose proof (domain_in_text_group _ _ _ (search_sound _ _ _ _ Es)) as Hd.
      split; [exact Hd|].
      rewrite <- (app_nil_r (group (strip s) (st, e))).
      apply domain_shaped_valid; auto. }
  intros [= <-] [H|H]; cbn [input_type] in H; congruence.
Qed.

(** X16.  The tax number that [identify_input_type] reports is made of
    exactly eleven digits; its check digit is not examined. *)
Theorem identified_piva_is_eleven_digits (s : str) (r : identified) :
  identify s = Ok r ->
  input_type r = lit "partita_iva" ->
  exists p, extracted_data r !! lit "partita_iva" = Some p /\
    length p = 11%nat /\ Forall (fun c => isdecimal U c = true) p /\
    confidence r = 9 # 10.
Proof.
  destruct type_names_differ as (_ & _ & _ & _ & _ & _ & N1 & N2 & N3 & N4).
  unfold identify_input_type.
  destruct (startswith (strip s) (lit "http://")
            || startswith (strip s) (lit "https://")).
  { destruct (urlparse_netloc (strip s)); [|discriminate].
    unfold mbind, result_bind, bind. intros [= <-] H; cbn [input_type] in H;
      congruence. }
  destruct (search U (piva_pattern U) (strip s)) as [[st e]|] eqn:Es.
  { intros [= <-] _. cbn [extracted_data confidence].
    exists (group (strip s) (st, e)).
    assert (Hl : forall m : gmap str str,
               match strip (sub_empty U (piva_pattern U) (strip s)) with
               | [] => <[lit "partita_iva" := group (strip s) (st, e)]> m
               | _ :: _ =>
                   <[lit "company_name" :=
                       strip (sub_empty U (piva_pattern U) (strip s))]>
                     (<[lit "partita_iva" := group (strip s) (st, e)]> m)
               end !! lit "partita_iva" = Some (group (strip s) (st, e))).
    { intros m. destruct (strip (sub_empty _ _ _)); lazy iota beta.
      - apply lookup_insert_eq.
      - rewrite lookup_insert_ne by discriminate. apply lookup_insert_eq. }
    split; [apply Hl|].
    apply search_sound in Es. unfold piva_pattern in Es.
    inversion Es as [| |? ? ? _ H1| |]; subst; clear Es.
    inversion H1 as [|? ? ? ? ? n ? Hlo Hhi Hall H2| | |]; subst; clear H1.
    specialize (Hhi _ eq_refl). assert (n = 11%nat) by lia. subst n.
    inversion H2 as [| |? ? ? _ H3| |]; subst; clear H2.
    inversion H3; subst; clear H3.
    destruct (class_prefix (drop st (strip s)) (isdecimal U) 11)
      as (w & s' & Hw & Hlen & Hd).
    { intros j Hj. exact (proj1 (in_class_drop _ _ st _) (Hall j Hj)). }
    unfold group. cbn [fst snd].
    replace (st + 11 - st)%nat with 11%nat by lia.
    rewrite Hw, (take_app_exact w s' 11 Hlen). auto. }
  destruct (match_ U domain_pattern (strip s)).
  { intros [= <-] H; cbn [input_type] in H; congruence. }
  destruct (search U domain_in_text_pattern (strip s)).
  { intros [= <-] H; cbn [input_type] in H; congruence. }
  intros [= <-] H; cbn [input_type] in H; congruence.
Qed.

(** *** Whitespace around the input *)

Lemma lstrip_spaces (p t : str) :
  Forall (fun c => isspace c = true) p -> lstrip (p ++ t) = lstrip t.
Proof.
  induction 1 as [|c p Hc _ IH]; [reflexivity|].
  cbn [app lstrip]. now rewrite Hc.
Qed.

Lemma rstrip_spaces (t q : str) :
  Forall (fun c => isspace c = true) q -> rstrip (t ++ q) = rstrip t.
Proof.
  intros H. unfold rstrip. rewrite rev_app_distr.
  rewrite lstrip_spaces; [reflexivity|now apply Forall_rev].
Qed.

Lemma strip_spaces_r (t q : str) :
  Forall (fun c => isspace c = true) q -> strip (t ++ q) = strip t.
Proof.
  intros H. unfold strip. induction t as [|c t IH].
  - cbn [app]. rewrite <- (app_nil_r q) at 1.
    rewrite (lstrip_spaces q [] H). reflexivity.
  - cbn [app lstrip]. destruct (isspace c); [exact IH|].
    now apply (rstrip_spaces (c :: t) q).
Qed.

Lemma strip_padding (p t q : str) :
  Forall (fun c => isspace c = true) p ->
  Forall (fun c => isspace c = true) q ->
  strip (p ++ t ++ q) = strip t.
Proof.
  intros Hp Hq. rewrite <- (strip_spaces_r t q Hq).
  unfold strip. now rewrite (lstrip_spaces p (t ++ q) Hp).
Qed.

Lemma strip_idempotent (s : str) : strip (strip s) = strip s.
Proof. apply strip_fixed; [apply strip_head|apply strip_last]. Qed.

(** X17.  Whitespace before and after the input changes nothing in the
    answer, not even the [original_input] it reports; and classifying the
    reported [original_input] again gives the same answer. *)
Theorem identify_ignores_padding (p s q : str) :
  Forall (fun c => isspace c = true) p ->
  Forall (fun c => isspace c = true) q ->
  identify (p ++ s ++ q) = identify s /\
  (forall r, identify s = Ok r ->
     original_input r = strip s /\ identify (original_input r) = Ok r).
Proof.
  intros Hp Hq.
  assert (Hs : forall a b, strip a = strip b -> identify a = identify b).
  { intros a b E. unfold identify_input_type. now rewrite E. }
  split; [apply Hs, strip_padding; assumption|].
  intros r Hr.
  assert (Ho : original_input r = strip s).
  { revert Hr. unfold identify_input_type.
    destruct (_ || _).
    { destruct (urlparse_netloc (strip s)); [|discriminate].
      unfold mbind, result_bind, bind. now intros [= <-]. }
    destruct (search U (piva_pattern U) (strip s)); [now intros [= <-]|].
    destruct (match_ U domain_pattern (strip s)); [now intros [= <-]|].
    destruct (search U domain_in_text_pattern (strip s)); now intros [= <-]. }
  split; [exact Ho|].
  rewrite <- Hr, Ho. apply Hs, strip_idempotent.
Qed.

End Identify.

Lemma identified_domain_is_valid_witness :
  exists r,
    identify_input_type ascii_db netloc_core (lit "acme example.com") = Ok r /\
    (input_type r = lit "domain" \/ input_type r = lit "company_with_domain") /\
    exists dom, extracted_data r !! lit "domain" = Some dom /\
      domain_shaped dom /\ validate_domain ascii_db dom = true.
Proof.
  eexists. split; [vm_compute; reflexivity|].
  split; [right; reflexivity|].
  apply (identified_domain_is_valid ascii_db netloc_core
           (lit "acme example.com"));
    [vm_compute; reflexivity|right; reflexivity].
Defined.

Lemma identified_piva_is_eleven_digits_witness :
  exists r,
    identify_input_type ascii_db netloc_core (lit "Acme 12345678901") = Ok r /\
    input_type r = lit "partita_iva" /\
    exists p, extracted_data r !! lit "partita_iva" = Some p /\
      length p = 11%nat /\ Forall (fun c => isdecimal ascii_db c = true) p /\
      confidence r = 9 # 10.
Proof.
  eexists. split; [vm_compute; reflexivity|]. split; [reflexivity|].
  apply (identified_piva_is_eleven_digits ascii_db netloc_core
           (lit "Acme 12345678901"));
    [vm_compute; reflexivity|reflexivity].
Defined.

Lemma identify_ignores_padding_witness :
  Forall (fun c => isspace c = true) (lit "  ") /\
  Forall (fun c => isspace c = true) [10%N] /\
  identify_input_type ascii_db netloc_core (lit "  " ++ lit "example.com" ++ [10%N])
    = identify_input_type ascii_db netloc_core (lit "example.com").
Proof.
  assert (H1 : Forall (fun c => isspace c = true) (lit "  "))
    by (repeat constructor).
  assert (H2 : Forall (fun c => isspace c = true) [10%N])
    by (repeat constructor).
  split; [exact H1|]. split; [exact H2|].
  apply (identify_ignores_padding ascii_db netloc_core _ _ _ H1 H2).
Defined.

(** The tax number reported need not be a valid one. *)
Example identified_piva_unchecked :
  classified (identify_input_type ascii_db netloc_core (lit "12345678901"))
    (lit "partita_iva") (9 # 10) /\
  DataValidator.validate_partita_iva ascii_db (lit "12345678901") = Ok false.
Proof.
  split; [|vm_compute; reflexivity].
  eexists. split; [vm_compute; reflexivity|]. split; reflexivity.
Qed.

End IdentifyExtra.

(** ** AsyncHelpers.retry_async_call *)

Module AsyncHelpersExtra.
Import AsyncHelpers AsyncHelpersProps AsyncSleep.

Section Retry.
Context {A E : Type}.
Variable is_Exception : E -> bool.
Variable func : nat -> outcome A E.

(** X18.  With [max_retries] zero or negative [func] is never invoked,
    nothing is slept, and the call ends in the [TypeError] of
    [raise None]. *)
Theorem retry_async_call_no_attempt (max_retries : Z) (delay : Q) :
  max_retries <= 0 ->
  retry_async_call is_Exception func max_retries delay
    = Run A E RaisedTypeError 0 [].
Proof.
  intros H. unfold retry_async_call.
  replace (Z.to_nat max_retries) with 0%nat by lia. reflexivity.
Qed.

Lemma total_sleep_backoff (delay : Q) (k : nat) :
  (total_sleep (backoff delay k)
   == delay * (inject_Z (2 ^ Z.of_nat k) - 1))%Q.
Proof.
  revert delay. induction k as [|k IH]; intros delay.
  - change (total_sleep (backoff delay 0)) with 0%Q.
    change (inject_Z (2 ^ Z.of_nat 0)) with 1%Q. ring.
  - change (total_sleep (backoff delay (S k)))
      with (delay + total_sleep (backoff (delay * 2) k))%Q.
    rewrite IH.
    replace (Z.of_nat (S k)) with (Z.of_nat k + 1) by lia.
    rewrite Z.pow_add_r by lia. rewrite inject_Z_mult.
    change (inject_Z (2 ^ 1)) with 2%Q. ring.
Qed.

(** X19.  When every one of the [max_retries] attempts fails, the time
    slept in all is [delay * (2 ^ (max_retries - 1) - 1)]: with the default
    of three attempts and one second, three seconds. *)
Theorem retry_async_call_total_sleep (max_retries : Z) (delay : Q) :
  1 <= max_retries ->
  (forall j, (j < Z.to_nat max_retries)%nat -> fails is_Exception func j) ->
  (total_sleep (sleeps (retry_async_call is_Exception func max_retries delay))
   == delay * (inject_Z (2 ^ (max_retries - 1)) - 1))%Q.
Proof.
  intros Hmax Hf.
  assert (Hn : Z.of_nat (0 + Z.to_nat max_retries) = max_retries) by (cbn; lia).
  destruct (Hf (Z.to_nat max_retries - 1)%nat ltac:(lia)) as (e & He & _).
  unfold retry_async_call.
  rewrite (loop_exhausted is_Exception func max_retries
             (Z.to_nat max_retries) 0 delay None e Hn).
  - cbn [sleeps]. rewrite total_sleep_backoff.
    replace (Z.of_nat (Z.to_nat max_retries - 1)) with (max_retries - 1) by lia.
    reflexivity.
  - intros j Hj. apply Hf. lia.
  - destruct (Z.to_nat max_retries) eqn:En; [lia|]. exact He.
Qed.

End Retry.

Lemma retry_async_call_no_attempt_witness :
  -1 <= 0 /\
  retry_async_call (fun _ : unit => true) (fun _ => @Returns nat unit 0%nat)
    (-1) 1
  = Run nat unit RaisedTypeError 0 [].
Proof.
  split; [lia|].
  apply (retry_async_call_no_attempt (fun _ : unit => true)); lia.
Defined.

Lemma retry_async_call_total_sleep_witness :
  1 <= 3 /\
  (total_sleep (sleeps (retry_async_call (fun _ : unit => true)
                          (fun _ => @Raises nat unit tt) 3 1))
   == 1 * (inject_Z (2 ^ (3 - 1)) - 1))%Q.
Proof.
  split; [lia|].
  apply (retry_async_call_total_sleep (fun _ : unit => true)
           (fun _ => @Raises nat unit tt) 3 1); [lia|].
  intros j _. exists tt. split; reflexivity.
Defined.

End AsyncHelpersExtra.
